(** * The Claus lifetime breast-cancer risk model: [risk_models/claus/claus.py]

    A shallow embedding of [calculate_risk], [get_lifetime_risk],
    [_lookup_claus_table], [sort_ages] and [_bin_age_to_index], and the
    properties of the calculator stated over it.

    Modelling conventions (Python 3).
    - Ages and indices are Python integers: [Z].  An entry of an age list is
      an integer or [None]: [option Z].
    - The risk tables are nested Python lists of numbers: [pyval].  Indexing
      follows Python: a negative index counts from the end, an index out of
      range raises [IndexError], indexing with [None] or indexing a number
      raises [TypeError].
    - The arithmetic of the numbers read from the tables is a parameter of
      the calculator, the class [PyNum].  Two instances are given: IEEE
      binary64 floating point ([binary64_num], what Python computes) and
      exact rationals ([exact_num], the idealised arithmetic in which the
      properties that need real-number reasoning are proved).  The
      structural properties hold for every arithmetic.
    - [round(x, 3)] is the nearest multiple of 1/1000, the treatment of ties
      (to even in Python 3, away from zero in Python 2) being a parameter.
    - Exceptions are explicit: every function that can raise returns a
      [result]. *)

From Stdlib Require Import ZArith QArith Lia Lqa.
From Stdlib Require Floats.SpecFloat.
From stdpp Require Import base list sorting numbers.

Local Open Scope Z_scope.

(** ** Python values, exceptions *)

#[warnings="-register-all"]
Inductive pyval (num : Type) : Type :=
| PNum (q : num)
| PList (l : list (pyval num)).
Arguments PNum {num} q.
Arguments PList {num} l.

Inductive exn : Type := IndexError | TypeError | ZeroDivisionError.

Inductive result (A : Type) : Type :=
| Ok (a : A)
| Raise (e : exn).
Arguments Ok {A} a.
Arguments Raise {A} e.

(** The exception monad, with stdpp's notation [x ← m; k]. *)
#[global] Instance result_ret : MRet result := fun A a => Ok a.
#[global] Instance result_bind : MBind result := fun A B k m =>
  match m with
  | Ok a => k a
  | Raise e => Raise e
  end.
#[global] Instance result_fmap : FMap result := fun A B f m =>
  match m with
  | Ok a => Ok (f a)
  | Raise e => Raise e
  end.

(** [for x in l: s = f(s, x)] with exceptions. *)
Fixpoint foldM {S A} (f : S -> A -> result S) (s : S) (l : list A) : result S :=
  match l with
  | [] => Ok s
  | x :: l' => s' ← f s x; foldM f s' l'
  end.

(** [v[i]]: subscripting with Python's rules. *)
Definition py_getitem {num} (v : pyval num) (i : option Z) : result (pyval num) :=
  match v, i with
  | PList l, Some i =>
      let n := Z.of_nat (length l) in
      let j := if i <? 0 then i + n else i in
      if (0 <=? j) && (j <? n)
      then match nth_error l (Z.to_nat j) with
           | Some x => Ok x
           | None => Raise IndexError
           end
      else Raise IndexError
  | _, _ => Raise TypeError
  end.

(** A table cell used in arithmetic must be a number. *)
Definition as_num {num} (v : pyval num) : result num :=
  match v with
  | PNum q => Ok q
  | PList _ => Raise TypeError
  end.

(** ** Rounding to three decimals *)

Inductive tie_rule : Type := HalfEven | HalfAwayFromZero.

(** The integer nearest to [n / d]. *)
Definition round_div (tie : tie_rule) (n : Z) (d : positive) : Z :=
  let f := n / Zpos d in
  let r := n mod Zpos d in
  match 2 * r ?= Zpos d with
  | Lt => f
  | Gt => f + 1
  | Eq => match tie with
          | HalfEven => if Z.even f then f else f + 1
          | HalfAwayFromZero => if 0 <=? n then f + 1 else f
          end
  end.

(** [round(x, 3)] on an exact rational. *)
Definition py_round3 (tie : tie_rule) (x : Q) : Q :=
  round_div tie (Qnum x * 1000) (Qden x) # 1000.

(** ** Python numbers

    The operations that [claus.py] applies to the numbers of the tables:
    conversion of an integer, [+], [-], [*], [/] (true division, whose
    divisor is first tested for zero), [>] and [round(x, 3)]. *)

Class PyNum (num : Type) : Type := {
  num_of_Z : Z -> num;
  num_add : num -> num -> num;
  num_sub : num -> num -> num;
  num_mul : num -> num -> num;
  num_div : num -> num -> num;
  num_is_zero : num -> bool;
  num_ltb : num -> num -> bool;
  num_round3 : tie_rule -> num -> num
}.

(** [x / y] under [from __future__ import division]. *)
Definition py_truediv {num} `{PyNum num} (x y : num) : result num :=
  if num_is_zero y then Raise ZeroDivisionError else Ok (num_div x y).

(** [max(a, b)]: the first argument unless the second is strictly larger. *)
Definition py_max {num} `{PyNum num} (a b : num) : num :=
  if num_ltb a b then b else a.

(** [risk if risk > 0 else None] *)
Definition positive_or_none {num} `{PyNum num} (risk : num) : option num :=
  if num_ltb (num_of_Z 0) risk then Some risk else None.

(** Exact rational arithmetic. *)
#[global] Instance exact_num : PyNum Q := {|
  num_of_Z := inject_Z;
  num_add := Qplus;
  num_sub := Qminus;
  num_mul := Qmult;
  num_div := Qdiv;
  num_is_zero := fun q => Qeq_bool q 0;
  num_ltb := fun a b => negb (Qle_bool b a);
  num_round3 := py_round3
|}.

(** IEEE 754 binary64, the [float] of Python, on the executable
    specification of the Standard Library. *)
Module Binary64.
Import SpecFloat.

Definition prec : Z := 53.
Definition emax : Z := 1024.

Definition t : Type := spec_float.

(** The float nearest to the rational [n / d]: the value of a decimal
    literal, of an integer, and of a rounded decimal. *)
Definition of_ratio (n : Z) (d : positive) : t :=
  match n with
  | Z0 => S754_zero false
  | Zpos m =>
      let '(mz, ez, lz) := SFdiv_core_binary prec emax (Zpos m) 0 (Zpos d) 0 in
      binary_round_aux prec emax false mz ez lz
  | Zneg m =>
      let '(mz, ez, lz) := SFdiv_core_binary prec emax (Zpos m) 0 (Zpos d) 0 in
      binary_round_aux prec emax true mz ez lz
  end.

Definition of_Z (n : Z) : t := binary_normalize prec emax n 0 false.

Definition is_zero (x : t) : bool :=
  match x with
  | S754_zero _ => true
  | _ => false
  end.

(** [round(x, 3)]: the exact value of [x] rounded to the nearest multiple
    of 1/1000, then the float nearest to that decimal.  Infinities and
    NaN are returned unchanged. *)
Definition round3 (tie : tie_rule) (x : t) : t :=
  match x with
  | S754_finite s m e =>
      let n := (if s then Zneg m else Zpos m) * 1000 in
      let k := match e with
               | Zneg p => round_div tie n (2 ^ p)%positive
               | _ => n * 2 ^ e
               end in
      if k =? 0 then S754_zero s else of_ratio k 1000
  | _ => x
  end.
End Binary64.

#[global] Instance binary64_num : PyNum Binary64.t := {|
  num_of_Z := Binary64.of_Z;
  num_add := SpecFloat.SFadd Binary64.prec Binary64.emax;
  num_sub := SpecFloat.SFsub Binary64.prec Binary64.emax;
  num_mul := SpecFloat.SFmul Binary64.prec Binary64.emax;
  num_div := SpecFloat.SFdiv Binary64.prec Binary64.emax;
  num_is_zero := Binary64.is_zero;
  num_ltb := SpecFloat.SFltb;
  num_round3 := Binary64.round3
|}.

(** ** The constants and helpers of [claus.py] *)

Definition VALID_MIN_AGE : Z := 20.
Definition VALID_MAX_AGE : Z := 79.

(** The seven tables imported from [claus_tables]; that module is not part
    of the sources, so the tables are a parameter of the calculator. *)
Record claus_tables (num : Type) : Type := {
  ONE_FIRST_DEG_TABLE : pyval num;
  ONE_SECOND_DEG_TABLE : pyval num;
  TWO_FIRST_DEG_TABLE : pyval num;
  MOTHER_MATERNAL_AUNT : pyval num;
  MOTHER_PATERNAL_AUNT : pyval num;
  TWO_SEC_DEG_DIFF_SIDE_TABLE : pyval num;
  TWO_SEC_DEG_SAME_SIDE_TABLE : pyval num
}.
Arguments ONE_FIRST_DEG_TABLE {num} _.
Arguments ONE_SECOND_DEG_TABLE {num} _.
Arguments TWO_FIRST_DEG_TABLE {num} _.
Arguments MOTHER_MATERNAL_AUNT {num} _.
Arguments MOTHER_PATERNAL_AUNT {num} _.
Arguments TWO_SEC_DEG_DIFF_SIDE_TABLE {num} _.
Arguments TWO_SEC_DEG_SAME_SIDE_TABLE {num} _.

(** The keyword arguments of [calculate_risk].  [mother_onset_age] is a
    single integer or absent ([None], or the default [[]]); the other
    arguments are lists whose entries are integers or [None]. *)
Record history : Type := {
  mother_onset_age : option Z;
  daughter_onset_ages : list (option Z);
  full_sister_onset_ages : list (option Z);
  maternal_aunt_onset_ages : list (option Z);
  paternal_aunt_onset_ages : list (option Z);
  maternal_grandmother_onset_ages : list (option Z);
  paternal_grandmother_onset_ages : list (option Z);
  maternal_half_sister_onset_ages : list (option Z);
  paternal_half_sister_onset_ages : list (option Z)
}.

Definition in_valid_range (age : Z) : Prop :=
  age <= VALID_MAX_AGE /\ VALID_MIN_AGE <= age.

#[global] Instance in_valid_range_dec age : Decision (in_valid_range age).
Proof. unfold in_valid_range. apply _. Defined.

(** [sorted(...)] on integers. *)
Definition sorted (l : list Z) : list Z := merge_sort Z.le l.

(** [sort_ages] on a list of integers. *)
Definition sort_ages (ages : list Z) : list Z :=
  sorted (filter in_valid_range ages).

(** The integer entries of a list. *)
Definition integers (ages : list (option Z)) : list Z := omap id ages.

(** [sort_ages] on a list that may hold [None]: the comparison
    [VALID_MAX_AGE >= None] of the comprehension raises [TypeError]. *)
Definition sort_ages_entries (ages : list (option Z)) : result (list Z) :=
  if decide (None ∈ ages) then Raise TypeError
  else Ok (sort_ages (integers ages)).

Definition _bin_age_to_index (age : Z) : option Z :=
  if age =? 0 then None else Some ((age - 20) / 10).

(** The test [if x] on an entry: [None] and 0 are falsy. *)
Definition truthy (x : option Z) : option Z :=
  match x with
  | Some a => if a =? 0 then None else Some a
  | None => None
  end.

(** [[x for x in l if x]] *)
Definition truthy_ages (l : list (option Z)) : list Z := omap truthy l.

Definition _lookup_claus_table {num} (table : pyval num) (patient_index : Z)
    (relative1_index relative2_index : option Z) : result (pyval num) :=
  match relative2_index with
  | Some _ =>
      row ← py_getitem table (Some patient_index);
      col ← py_getitem row relative1_index;
      py_getitem col relative2_index
  | None =>
      row ← py_getitem table (Some patient_index);
      py_getitem row relative1_index
  end.

(** The age lists assembled by [calculate_risk]. *)
Definition first_degree_ages (h : history) : list Z :=
  let first_degree_ages :=
    match mother_onset_age h with
    | Some m => if m =? 0 then [] else [Some m]
    | None => []
    end in
  sort_ages (truthy_ages
    (first_degree_ages ++ full_sister_onset_ages h ++ daughter_onset_ages h)).

Definition second_degree_ages (h : history) : list Z :=
  sort_ages (truthy_ages
    (maternal_aunt_onset_ages h ++ paternal_aunt_onset_ages h ++
     maternal_grandmother_onset_ages h ++ paternal_grandmother_onset_ages h ++
     maternal_half_sister_onset_ages h ++ paternal_half_sister_onset_ages h)).

Definition maternal_second_degree_ages (h : history) : list Z :=
  sort_ages (truthy_ages
    (maternal_aunt_onset_ages h ++ maternal_grandmother_onset_ages h ++
     maternal_half_sister_onset_ages h)).

Definition paternal_second_degree_ages (h : history) : list Z :=
  sort_ages (truthy_ages
    (paternal_aunt_onset_ages h ++ paternal_grandmother_onset_ages h ++
     paternal_half_sister_onset_ages h)).

(** The guard [VALID_MAX_AGE < patient_age < VALID_MIN_AGE]. *)
Definition age_guard (patient_age : Z) : bool :=
  (VALID_MAX_AGE <? patient_age) && (patient_age <? VALID_MIN_AGE).

Section Calculator.

Context {num : Type} {N : PyNum num}.

Variable tie : tie_rule.

Definition get_lifetime_risk (table : pyval num) (patient_age : Z)
    (relative1_index relative2_index : option Z) : result num :=
  lifetime_risk ← _lookup_claus_table table (-1) relative1_index relative2_index;
  let patient_age_lower_bin_index := (patient_age - 29) / 10 in
  let patient_age_over_bin := (patient_age - 29) mod 10 in
  current_age_risk ← _lookup_claus_table table patient_age_lower_bin_index
                        relative1_index relative2_index;
  current_age_risk ←
    (if patient_age_over_bin =? 0 then Ok current_age_risk
     else
       patient_age_upper_bin_risk ←
         _lookup_claus_table table (patient_age_lower_bin_index + 1)
           relative1_index relative2_index;
       u ← as_num patient_age_upper_bin_risk;
       c ← as_num current_age_risk;
       Ok (PNum (num_add c
                   (num_div (num_mul (num_sub u c) (num_of_Z patient_age_over_bin))
                            (num_of_Z 10)))));
  l ← as_num lifetime_risk;
  c ← as_num current_age_risk;
  q ← py_truediv (num_sub l c) (num_sub (num_of_Z 1) c);
  Ok (num_round3 tie q).

Variable T : claus_tables num.

(** Body of the loop "one 1st or 2nd degree relative". *)
Definition one_relative (patient_age : Z) (risk : num)
    (it : list Z * pyval num) : result num :=
  let (ages, table) := it in
  match ages with
  | [] => Ok risk
  | a0 :: _ =>
      r ← get_lifetime_risk table patient_age (_bin_age_to_index a0) None;
      Ok (py_max risk r)
  end.

(** Body of the loop "mother and an aunt". *)
Definition mother_and_aunt (patient_age mother : Z) (risk : num)
    (it : list (option Z) * pyval num) : result num :=
  let (ages, table) := it in
  ages ← sort_ages_entries ages;
  match ages with
  | [] => Ok risk
  | a0 :: _ =>
      r ← get_lifetime_risk table patient_age
             (_bin_age_to_index mother) (_bin_age_to_index a0);
      Ok (py_max risk r)
  end.

(** Body of the loop "both 1st degree or both 2nd degree on the same side". *)
Definition two_relatives (patient_age : Z) (risk : num)
    (it : list Z * pyval num) : result num :=
  let (ages, table) := it in
  match ages with
  | a0 :: a1 :: _ =>
      r ← get_lifetime_risk table patient_age
             (_bin_age_to_index a0) (_bin_age_to_index a1);
      Ok (py_max risk r)
  | _ => Ok risk
  end.

(** "Two relatives that are on opposite sides". *)
Definition opposite_sides (patient_age : Z) (risk : num)
    (maternal paternal : list Z) : result num :=
  match maternal, paternal with
  | m0 :: _, p0 :: _ =>
      r ← get_lifetime_risk (TWO_SEC_DEG_DIFF_SIDE_TABLE T) patient_age
             (_bin_age_to_index m0) (_bin_age_to_index p0);
      Ok (py_max risk r)
  | _, _ => Ok risk
  end.

(** [calculate_risk]: [Ok None] is the return value [None]. *)
Definition calculate_risk (patient_age : Z) (h : history) : result (option num) :=
  if age_guard patient_age then Ok None
  else
    let first_degree_ages := first_degree_ages h in
    let second_degree_ages := second_degree_ages h in
    let maternal_second_degree_ages := maternal_second_degree_ages h in
    let paternal_second_degree_ages := paternal_second_degree_ages h in
    let risk := num_of_Z 0 in
    risk ← foldM (one_relative patient_age) risk
              [(first_degree_ages, ONE_FIRST_DEG_TABLE T);
               (second_degree_ages, ONE_SECOND_DEG_TABLE T)];
    risk ←
      match mother_onset_age h with
      | Some mother =>
          if mother =? 0 then Ok risk
          else foldM (mother_and_aunt patient_age mother) risk
                 [(maternal_aunt_onset_ages h, MOTHER_MATERNAL_AUNT T);
                  (paternal_aunt_onset_ages h, MOTHER_PATERNAL_AUNT T)]
      | None => Ok risk
      end;
    risk ← foldM (two_relatives patient_age) risk
              [(first_degree_ages, TWO_FIRST_DEG_TABLE T);
               (maternal_second_degree_ages, TWO_SEC_DEG_SAME_SIDE_TABLE T);
               (paternal_second_degree_ages, TWO_SEC_DEG_SAME_SIDE_TABLE T)];
    risk ← opposite_sides patient_age risk
              maternal_second_degree_ages paternal_second_degree_ages;
    Ok (positive_or_none risk).

End Calculator.

(** ** Sample tables

    Modelled from the spec: the tables of [claus_tables.py], which is not
    part of the sources.  The shape follows the spec (rows are the patient
    age bins 29, 39, ..., 79, the last row being the lifetime row reached by
    index [-1]; six relative age bins per axis; every cell a probability).
    The values are illustrative, not the published ones. *)

Definition table2 {num} (f : Z -> Z -> num) : pyval num :=
  PList (map (fun p => PList (map (fun r => PNum (f p r)) (seqZ 0 6))) (seqZ 0 6)).

Definition table3 {num} (f : Z -> Z -> Z -> num) : pyval num :=
  PList (map (fun p =>
    PList (map (fun r1 =>
      PList (map (fun r2 => PNum (f p r1 r2)) (seqZ 0 6))) (seqZ 0 6))) (seqZ 0 6)).

(** Risk grows with the patient's age and with younger onset in relatives. *)
Definition cell2 (s : Z) (p r : Z) : Q := (s * (p + 1) * (12 - r)) # 1000.
Definition cell3 (s : Z) (p r1 r2 : Z) : Q := (s * (p + 1) * (24 - r1 - r2)) # 2000.

Definition sample_tables : claus_tables Q := {|
  ONE_FIRST_DEG_TABLE := table2 (cell2 3);
  ONE_SECOND_DEG_TABLE := table2 (cell2 2);
  TWO_FIRST_DEG_TABLE := table3 (cell3 8);
  MOTHER_MATERNAL_AUNT := table3 (cell3 7);
  MOTHER_PATERNAL_AUNT := table3 (cell3 6);
  TWO_SEC_DEG_DIFF_SIDE_TABLE := table3 (cell3 4);
  TWO_SEC_DEG_SAME_SIDE_TABLE := table3 (cell3 5)
|}.

(** The same tables with binary64 cells: each cell is the float nearest to
    the decimal written above, as a literal of [claus_tables.py] would be. *)
Definition cell2_binary64 (s : Z) (p r : Z) : Binary64.t :=
  Binary64.of_ratio (s * (p + 1) * (12 - r)) 1000.
Definition cell3_binary64 (s : Z) (p r1 r2 : Z) : Binary64.t :=
  Binary64.of_ratio (s * (p + 1) * (24 - r1 - r2)) 2000.

Definition sample_tables_binary64 : claus_tables Binary64.t := {|
  ONE_FIRST_DEG_TABLE := table2 (cell2_binary64 3);
  ONE_SECOND_DEG_TABLE := table2 (cell2_binary64 2);
  TWO_FIRST_DEG_TABLE := table3 (cell3_binary64 8);
  MOTHER_MATERNAL_AUNT := table3 (cell3_binary64 7);
  MOTHER_PATERNAL_AUNT := table3 (cell3_binary64 6);
  TWO_SEC_DEG_DIFF_SIDE_TABLE := table3 (cell3_binary64 4);
  TWO_SEC_DEG_SAME_SIDE_TABLE := table3 (cell3_binary64 5)
|}.

Definition no_history : history := {|
  mother_onset_age := None;
  daughter_onset_ages := [];
  full_sister_onset_ages := [];
  maternal_aunt_onset_ages := [];
  paternal_aunt_onset_ages := [];
  maternal_grandmother_onset_ages := [];
  paternal_grandmother_onset_ages := [];
  maternal_half_sister_onset_ages := [];
  paternal_half_sister_onset_ages := []
|}.

Definition with_mother (m : Z) (h : history) : history := {|
  mother_onset_age := Some m;
  daughter_onset_ages := daughter_onset_ages h;
  full_sister_onset_ages := full_sister_onset_ages h;
  maternal_aunt_onset_ages := maternal_aunt_onset_ages h;
  paternal_aunt_onset_ages := paternal_aunt_onset_ages h;
  maternal_grandmother_onset_ages := maternal_grandmother_onset_ages h;
  paternal_grandmother_onset_ages := paternal_grandmother_onset_ages h;
  maternal_half_sister_onset_ages := maternal_half_sister_onset_ages h;
  paternal_half_sister_onset_ages := paternal_half_sister_onset_ages h
|}.

(** Maternal aunts given as a list that may hold [None]. *)
Definition with_maternal_aunt_entries (l : list (option Z)) (h : history)
    : history := {|
  mother_onset_age := mother_onset_age h;
  daughter_onset_ages := daughter_onset_ages h;
  full_sister_onset_ages := full_sister_onset_ages h;
  maternal_aunt_onset_ages := l;
  paternal_aunt_onset_ages := paternal_aunt_onset_ages h;
  maternal_grandmother_onset_ages := maternal_grandmother_onset_ages h;
  paternal_grandmother_onset_ages := paternal_grandmother_onset_ages h;
  maternal_half_sister_onset_ages := maternal_half_sister_onset_ages h;
  paternal_half_sister_onset_ages := paternal_half_sister_onset_ages h
|}.

(** Maternal aunts given as a list of integers. *)
Definition with_maternal_aunts (l : list Z) (h : history) : history :=
  with_maternal_aunt_entries (map Some l) h.

(** ** Vocabulary of the specification

    The spec describes [calculate_risk] as a list of steps, each of which,
    when applicable, produces one candidate risk by one call of
    [get_lifetime_risk]; the result is the largest candidate.  The
    definitions below name these notions so that they can be compared with
    the code above. *)

(** A table lookup: the table and the one or two relative indices. *)
Abbreviation lookup_req num := (pyval num * option Z * option Z)%type (only parsing).

Definition single_step {num} (ages : list Z) (table : pyval num)
    : option (lookup_req num) :=
  match ages with
  | a0 :: _ => Some (table, _bin_age_to_index a0, None)
  | [] => None
  end.

(** The mother-plus-aunt step raises when the aunt list holds [None]. *)
Definition mother_aunt_step {num} (mother : option Z) (aunts : list (option Z))
    (table : pyval num) : result (option (lookup_req num)) :=
  match mother with
  | Some m =>
      if m =? 0 then Ok None
      else
        ages ← sort_ages_entries aunts;
        Ok (match ages with
            | a0 :: _ => Some (table, _bin_age_to_index m, _bin_age_to_index a0)
            | [] => None
            end)
  | None => Ok None
  end.

Definition pair_step {num} (ages : list Z) (table : pyval num)
    : option (lookup_req num) :=
  match ages with
  | a0 :: a1 :: _ => Some (table, _bin_age_to_index a0, _bin_age_to_index a1)
  | _ => None
  end.

Definition opposite_step {num} (maternal paternal : list Z) (table : pyval num)
    : option (lookup_req num) :=
  match maternal, paternal with
  | m0 :: _, p0 :: _ => Some (table, _bin_age_to_index m0, _bin_age_to_index p0)
  | _, _ => None
  end.

(** The eight steps in the order of the code, each with the condition under
    which the code performs it: [Ok None] is a step that does not apply,
    [Raise e] a step that raises before any lookup. *)
Definition steps {num} (T : claus_tables num) (h : history)
    : list (result (option (lookup_req num))) :=
  [ Ok (single_step (first_degree_ages h) (ONE_FIRST_DEG_TABLE T));
    Ok (single_step (second_degree_ages h) (ONE_SECOND_DEG_TABLE T));
    mother_aunt_step (mother_onset_age h) (maternal_aunt_onset_ages h)
      (MOTHER_MATERNAL_AUNT T);
    mother_aunt_step (mother_onset_age h) (paternal_aunt_onset_ages h)
      (MOTHER_PATERNAL_AUNT T);
    Ok (pair_step (first_degree_ages h) (TWO_FIRST_DEG_TABLE T));
    Ok (pair_step (maternal_second_degree_ages h) (TWO_SEC_DEG_SAME_SIDE_TABLE T));
    Ok (pair_step (paternal_second_degree_ages h) (TWO_SEC_DEG_SAME_SIDE_TABLE T));
    Ok (opposite_step (maternal_second_degree_ages h)
          (paternal_second_degree_ages h) (TWO_SEC_DEG_DIFF_SIDE_TABLE T)) ].

(** The lookups of the steps up to the first step that raises, and the
    exception of that step. *)
Fixpoint planned {num} (l : list (result (option (lookup_req num))))
    : list (lookup_req num) * option exn :=
  match l with
  | [] => ([], None)
  | Ok (Some q) :: l' => let (qs, e) := planned l' in (q :: qs, e)
  | Ok None :: l' => planned l'
  | Raise e :: _ => ([], Some e)
  end.

(** The lookups that [calculate_risk] performs, in order. *)
Definition applicable_steps {num} (T : claus_tables num) (h : history)
    : list (lookup_req num) :=
  (planned (steps T h)).1.

Definition candidate {num} `{PyNum num} (tie : tie_rule) (patient_age : Z)
    (s : lookup_req num) : result num :=
  let '(table, r1, r2) := s in get_lifetime_risk tie table patient_age r1 r2.

(** The candidate risks of all applicable steps, in order. *)
Definition candidates {num} `{PyNum num} (tie : tie_rule) (T : claus_tables num)
    (patient_age : Z) (h : history) : result (list num) :=
  cs ← mapM (candidate tie patient_age) (applicable_steps T h);
  match (planned (steps T h)).2 with
  | Some e => Raise e
  | None => Ok cs
  end.

Definition max_risk {num} `{PyNum num} (cs : list num) : num :=
  foldl py_max (num_of_Z 0) cs.

(** One iteration of any of the loops, on a step. *)
Definition apply_step {num} `{PyNum num} (tie : tie_rule) (patient_age : Z)
    (risk : num) (s : result (option (lookup_req num))) : result num :=
  o ← s;
  match o with
  | Some q => r ← candidate tie patient_age q; Ok (py_max risk r)
  | None => Ok risk
  end.

(** The interpolated risk at the patient's current age. *)
Definition interpolate {num} `{PyNum num} (c0 u : num) (remainder : Z) : num :=
  if remainder =? 0 then c0
  else num_add c0 (num_div (num_mul (num_sub u c0) (num_of_Z remainder))
                           (num_of_Z 10)).

(** The mother-plus-aunt step as the spec words it: the supplied aunt ages
    sorted ascending, without the range filter. *)
Definition mother_and_aunt_unfiltered {num} `{PyNum num} (tie : tie_rule)
    (patient_age mother : Z) (risk : num) (it : list Z * pyval num)
    : result num :=
  let (ages, table) := it in
  let ages := sorted ages in
  match ages with
  | [] => Ok risk
  | a0 :: _ =>
      r ← get_lifetime_risk tie table patient_age
             (_bin_age_to_index mother) (_bin_age_to_index a0);
      Ok (py_max risk r)
  end.

(** A table whose rows all have [n] relative age bins on the first relative
    axis (the spec: relative bin indices 0 through 5). *)
Definition has_relative_bins {num} (n : nat) (table : pyval num) : bool :=
  match table with
  | PList (row :: rows) =>
      forallb (fun row => match row with
                          | PList cols => Nat.eqb (length cols) n
                          | PNum _ => false
                          end) (row :: rows)
  | _ => false
  end.

(** Two histories that differ only in the order of the entries inside each
    list. *)
Definition history_permuted (h h' : history) : Prop :=
  mother_onset_age h = mother_onset_age h' /\
  daughter_onset_ages h ≡ₚ daughter_onset_ages h' /\
  full_sister_onset_ages h ≡ₚ full_sister_onset_ages h' /\
  maternal_aunt_onset_ages h ≡ₚ maternal_aunt_onset_ages h' /\
  paternal_aunt_onset_ages h ≡ₚ paternal_aunt_onset_ages h' /\
  maternal_grandmother_onset_ages h ≡ₚ maternal_grandmother_onset_ages h' /\
  paternal_grandmother_onset_ages h ≡ₚ paternal_grandmother_onset_ages h' /\
  maternal_half_sister_onset_ages h ≡ₚ maternal_half_sister_onset_ages h' /\
  paternal_half_sister_onset_ages h ≡ₚ paternal_half_sister_onset_ages h'.

(** Two histories with the same mother's age and the same youngest ages in
    each category: the two youngest where a two-relative table is indexed,
    the youngest elsewhere (for the aunt lists of the mother-plus-aunt step:
    the same youngest valid age, or an exception for both). *)
Definition same_youngest (h h' : history) : Prop :=
  mother_onset_age h = mother_onset_age h' /\
  take 2 (first_degree_ages h) = take 2 (first_degree_ages h') /\
  take 1 (second_degree_ages h) = take 1 (second_degree_ages h') /\
  take 2 (maternal_second_degree_ages h) = take 2 (maternal_second_degree_ages h') /\
  take 2 (paternal_second_degree_ages h) = take 2 (paternal_second_degree_ages h') /\
  (take 1 <$> sort_ages_entries (maternal_aunt_onset_ages h))
    = (take 1 <$> sort_ages_entries (maternal_aunt_onset_ages h')) /\
  (take 1 <$> sort_ages_entries (paternal_aunt_onset_ages h))
    = (take 1 <$> sort_ages_entries (paternal_aunt_onset_ages h')).

Definition with_paternal_aunts (l : list Z) (h : history) : history := {|
  mother_onset_age := mother_onset_age h;
  daughter_onset_ages := daughter_onset_ages h;
  full_sister_onset_ages := full_sister_onset_ages h;
  maternal_aunt_onset_ages := maternal_aunt_onset_ages h;
  paternal_aunt_onset_ages := map Some l;
  maternal_grandmother_onset_ages := maternal_grandmother_onset_ages h;
  paternal_grandmother_onset_ages := paternal_grandmother_onset_ages h;
  maternal_half_sister_onset_ages := maternal_half_sister_onset_ages h;
  paternal_half_sister_onset_ages := paternal_half_sister_onset_ages h
|}.







(** ** Adding a relative *)

Inductive category : Type :=
| Mother | Daughter | FullSister
| MaternalAunt | PaternalAunt
| MaternalGrandmother | PaternalGrandmother
| MaternalHalfSister | PaternalHalfSister.

#[global] Instance category_eq_dec : EqDecision category.
Proof. solve_decision. Defined.

(** The history with one more onset age in category [c].  The mother has a
    single slot: adding her is meant for a history without a mother's age. *)
Definition add_relative (c : category) (age : Z) (h : history) : history := {|
  mother_onset_age :=
    match c with Mother => Some age | _ => mother_onset_age h end;
  daughter_onset_ages :=
    match c with Daughter => Some age :: daughter_onset_ages h
               | _ => daughter_onset_ages h end;
  full_sister_onset_ages :=
    match c with FullSister => Some age :: full_sister_onset_ages h
               | _ => full_sister_onset_ages h end;
  maternal_aunt_onset_ages :=
    match c with MaternalAunt => Some age :: maternal_aunt_onset_ages h
               | _ => maternal_aunt_onset_ages h end;
  paternal_aunt_onset_ages :=
    match c with PaternalAunt => Some age :: paternal_aunt_onset_ages h
               | _ => paternal_aunt_onset_ages h end;
  maternal_grandmother_onset_ages :=
    match c with MaternalGrandmother => Some age :: maternal_grandmother_onset_ages h
               | _ => maternal_grandmother_onset_ages h end;
  paternal_grandmother_onset_ages :=
    match c with PaternalGrandmother => Some age :: paternal_grandmother_onset_ages h
               | _ => paternal_grandmother_onset_ages h end;
  maternal_half_sister_onset_ages :=
    match c with MaternalHalfSister => Some age :: maternal_half_sister_onset_ages h
               | _ => maternal_half_sister_onset_ages h end;
  paternal_half_sister_onset_ages :=
    match c with PaternalHalfSister => Some age :: paternal_half_sister_onset_ages h
               | _ => paternal_half_sister_onset_ages h end
|}.

(** No mother's age, or a falsy one. *)
Definition mother_absent (h : history) : Prop :=
  match mother_onset_age h with
  | Some m => m = 0
  | None => True
  end.

(** The mother's age, when given and truthy, is in the valid range. *)
Definition mother_valid (h : history) : Prop :=
  match mother_onset_age h with
  | Some m => m = 0 \/ in_valid_range m
  | None => True
  end.

(** The aunt lists hold no [None]. *)
Definition aunts_are_integers (h : history) : Prop :=
  (None ∉ maternal_aunt_onset_ages h) /\ (None ∉ paternal_aunt_onset_ages h).

(** The aunt lists can be compared with the age bounds: the
    mother-plus-aunt step is skipped (no truthy mother's age), or the aunt
    lists hold no [None]. *)
Definition aunts_comparable (h : history) : Prop :=
  mother_absent h \/ aunts_are_integers h.

(** At the patient's age, the conditional risk read from a table exists for
    the relative bins 0..5 and does not grow with the bin index (a younger
    onset in a relative is not a smaller risk). *)
Definition risk_antitone2 (tie : tie_rule) (patient_age : Z) (table : pyval Q)
    : Prop :=
  forall i i', 0 <= i -> i <= i' -> i' <= 5 ->
    exists r r',
      get_lifetime_risk tie table patient_age (Some i) None = Ok r /\
      get_lifetime_risk tie table patient_age (Some i') None = Ok r' /\
      (r' <= r)%Q.

Definition risk_antitone3 (tie : tie_rule) (patient_age : Z) (table : pyval Q)
    : Prop :=
  forall i i' j j',
    0 <= i -> i <= i' -> i' <= 5 -> 0 <= j -> j <= j' -> j' <= 5 ->
    exists r r',
      get_lifetime_risk tie table patient_age (Some i) (Some j) = Ok r /\
      get_lifetime_risk tie table patient_age (Some i') (Some j') = Ok r' /\
      (r' <= r)%Q.

Definition risk_antitone (tie : tie_rule) (patient_age : Z) (T : claus_tables Q)
    : Prop :=
  risk_antitone2 tie patient_age (ONE_FIRST_DEG_TABLE T) /\
  risk_antitone2 tie patient_age (ONE_SECOND_DEG_TABLE T) /\
  risk_antitone3 tie patient_age (TWO_FIRST_DEG_TABLE T) /\
  risk_antitone3 tie patient_age (MOTHER_MATERNAL_AUNT T) /\
  risk_antitone3 tie patient_age (MOTHER_PATERNAL_AUNT T) /\
  risk_antitone3 tie patient_age (TWO_SEC_DEG_DIFF_SIDE_TABLE T) /\
  risk_antitone3 tie patient_age (TWO_SEC_DEG_SAME_SIDE_TABLE T).

(** Executable checks of the two properties. *)
Definition risk_le_b (a b : result Q) : bool :=
  match a, b with
  | Ok r', Ok r => Qle_bool r' r
  | _, _ => false
  end.

Definition risk_antitone2_b (tie : tie_rule) (patient_age : Z) (table : pyval Q)
    : bool :=
  forallb (fun i => forallb (fun i' =>
    risk_le_b (get_lifetime_risk tie table patient_age (Some i') None)
              (get_lifetime_risk tie table patient_age (Some i) None))
    (seqZ i (6 - i))) (seqZ 0 6).

Definition risk_antitone3_b (tie : tie_rule) (patient_age : Z) (table : pyval Q)
    : bool :=
  forallb (fun i => forallb (fun i' =>
    forallb (fun j => forallb (fun j' =>
      risk_le_b (get_lifetime_risk tie table patient_age (Some i') (Some j'))
                (get_lifetime_risk tie table patient_age (Some i) (Some j)))
      (seqZ j (6 - j))) (seqZ 0 6))
    (seqZ i (6 - i))) (seqZ 0 6).

Definition risk_antitone_b (tie : tie_rule) (patient_age : Z) (T : claus_tables Q)
    : bool :=
  risk_antitone2_b tie patient_age (ONE_FIRST_DEG_TABLE T) &&
  risk_antitone2_b tie patient_age (ONE_SECOND_DEG_TABLE T) &&
  risk_antitone3_b tie patient_age (TWO_FIRST_DEG_TABLE T) &&
  risk_antitone3_b tie patient_age (MOTHER_MATERNAL_AUNT T) &&
  risk_antitone3_b tie patient_age (MOTHER_PATERNAL_AUNT T) &&
  risk_antitone3_b tie patient_age (TWO_SEC_DEG_DIFF_SIDE_TABLE T) &&
  risk_antitone3_b tie patient_age (TWO_SEC_DEG_SAME_SIDE_TABLE T).

(** Insertion of an age into an ascending list. *)
Fixpoint insert_age (a : Z) (l : list Z) : list Z :=
  match l with
  | [] => [a]
  | x :: l' => if decide (a <= x) then a :: l else x :: insert_age a l'
  end.

(** [l'] has a youngest age wherever [l] has one, and it is not older; the
    same for the second youngest. *)
Definition not_older (l l' : list Z) : Prop :=
  (forall x rest, l = x :: rest ->
     exists y rest', l' = y :: rest' /\ y <= x) /\
  (forall x0 x1 rest, l = x0 :: x1 :: rest ->
     exists y0 y1 rest', l' = y0 :: y1 :: rest' /\ y0 <= x0 /\ y1 <= x1).

(** The derived list after the addition: unchanged, or with the new age
    inserted. *)
Definition grows (a : Z) (l l' : list Z) : Prop :=
  l' = l \/ l' = insert_age a l.

(** A step of the enlarged history against the same step of the original
    one: unless the original step raises, it applies whenever the original
    applies, succeeds, and its candidate is not smaller. *)
Definition step_le (tie : tie_rule) (patient_age : Z)
    (s s' : result (option (lookup_req Q))) : Prop :=
  match s, s' with
  | Raise _, _ => True
  | Ok None, Ok None => True
  | Ok None, Ok (Some q') => exists r', candidate tie patient_age q' = Ok r'
  | Ok (Some q), Ok (Some q') =>
      exists r r', candidate tie patient_age q = Ok r /\
                   candidate tie patient_age q' = Ok r' /\ (r <= r')%Q
  | Ok _, _ => False
  end.

(** ** Further vocabulary: shapes of tables and of histories *)

Definition without_mother (h : history) : history := {|
  mother_onset_age := None;
  daughter_onset_ages := daughter_onset_ages h;
  full_sister_onset_ages := full_sister_onset_ages h;
  maternal_aunt_onset_ages := maternal_aunt_onset_ages h;
  paternal_aunt_onset_ages := paternal_aunt_onset_ages h;
  maternal_grandmother_onset_ages := maternal_grandmother_onset_ages h;
  paternal_grandmother_onset_ages := paternal_grandmother_onset_ages h;
  maternal_half_sister_onset_ages := maternal_half_sister_onset_ages h;
  paternal_half_sister_onset_ages := paternal_half_sister_onset_ages h
|}.

(** The history without the [None] entries of its lists. *)
Definition without_none (h : history) : history := {|
  mother_onset_age := mother_onset_age h;
  daughter_onset_ages := map Some (integers (daughter_onset_ages h));
  full_sister_onset_ages := map Some (integers (full_sister_onset_ages h));
  maternal_aunt_onset_ages := map Some (integers (maternal_aunt_onset_ages h));
  paternal_aunt_onset_ages := map Some (integers (paternal_aunt_onset_ages h));
  maternal_grandmother_onset_ages :=
    map Some (integers (maternal_grandmother_onset_ages h));
  paternal_grandmother_onset_ages :=
    map Some (integers (paternal_grandmother_onset_ages h));
  maternal_half_sister_onset_ages :=
    map Some (integers (maternal_half_sister_onset_ages h));
  paternal_half_sister_onset_ages :=
    map Some (integers (paternal_half_sister_onset_ages h))
|}.

(** An entry that is not an age of the valid range: [None] or an integer
    outside [20,79]. *)
Definition unusable (x : option Z) : Prop :=
  match x with
  | Some a => ~ in_valid_range a
  | None => True
  end.

(** No age of the history is in the valid range. *)
Definition no_valid_age (h : history) : Prop :=
  unusable (mother_onset_age h) /\
  Forall unusable
    (daughter_onset_ages h ++ full_sister_onset_ages h ++
     maternal_aunt_onset_ages h ++ paternal_aunt_onset_ages h ++
     maternal_grandmother_onset_ages h ++ paternal_grandmother_onset_ages h ++
     maternal_half_sister_onset_ages h ++ paternal_half_sister_onset_ages h).

(** Two histories with the same relatives up to the relation inside a degree
    and side: sisters and daughters may be exchanged, and so may grandmothers
    and half-sisters of one side. *)
Definition same_degrees (h h' : history) : Prop :=
  mother_onset_age h = mother_onset_age h' /\
  maternal_aunt_onset_ages h ≡ₚ maternal_aunt_onset_ages h' /\
  paternal_aunt_onset_ages h ≡ₚ paternal_aunt_onset_ages h' /\
  full_sister_onset_ages h ++ daughter_onset_ages h
    ≡ₚ full_sister_onset_ages h' ++ daughter_onset_ages h' /\
  maternal_grandmother_onset_ages h ++ maternal_half_sister_onset_ages h
    ≡ₚ maternal_grandmother_onset_ages h' ++ maternal_half_sister_onset_ages h' /\
  paternal_grandmother_onset_ages h ++ paternal_half_sister_onset_ages h
    ≡ₚ paternal_grandmother_onset_ages h' ++ paternal_half_sister_onset_ages h'.

(** The relative indices of a lookup are bins 0..5. *)
Definition bins_in_range {num} (s : lookup_req num) : Prop :=
  (exists i, s.1.2 = Some i /\ 0 <= i <= 5) /\
  (s.2 = None \/ exists j, s.2 = Some j /\ 0 <= j <= 5).

(** A row of [k] numbers that satisfy [P]. *)
Definition num_row {num} (k : nat) (P : num -> bool) (row : pyval num) : bool :=
  match row with
  | PList cells =>
      Nat.eqb (length cells) k &&
      forallb (fun c => match c with PNum q => P q | PList _ => false end) cells
  | PNum _ => false
  end.

(** A two-dimensional table of [n] rows by [k] relative bins. *)
Definition regular2 {num} (n k : nat) (P : num -> bool) (table : pyval num)
    : bool :=
  match table with
  | PList rows => Nat.eqb (length rows) n && forallb (num_row k P) rows
  | PNum _ => false
  end.

(** A three-dimensional table of [n] rows by [k] by [k] relative bins. *)
Definition regular3 {num} (n k : nat) (P : num -> bool) (table : pyval num)
    : bool :=
  match table with
  | PList rows =>
      Nat.eqb (length rows) n &&
      forallb (fun row => match row with
                          | PList cols =>
                              Nat.eqb (length cols) k && forallb (num_row k P) cols
                          | PNum _ => false
                          end) rows
  | PNum _ => false
  end.

(** The seven tables with the dimensions their use requires. *)
Definition regular_tables {num} (n k : nat) (P : num -> bool)
    (T : claus_tables num) : bool :=
  regular2 n k P (ONE_FIRST_DEG_TABLE T) &&
  regular2 n k P (ONE_SECOND_DEG_TABLE T) &&
  regular3 n k P (TWO_FIRST_DEG_TABLE T) &&
  regular3 n k P (MOTHER_MATERNAL_AUNT T) &&
  regular3 n k P (MOTHER_PATERNAL_AUNT T) &&
  regular3 n k P (TWO_SEC_DEG_DIFF_SIDE_TABLE T) &&
  regular3 n k P (TWO_SEC_DEG_SAME_SIDE_TABLE T).

(** A probability other than 1. *)
Definition below_one (q : Q) : bool := Qle_bool 0 q && negb (Qle_bool 1 q).



Definition with_full_sisters (l : list Z) (h : history) : history := {|
  mother_onset_age := mother_onset_age h;
  daughter_onset_ages := daughter_onset_ages h;
  full_sister_onset_ages := map Some l;
  maternal_aunt_onset_ages := maternal_aunt_onset_ages h;
  paternal_aunt_onset_ages := paternal_aunt_onset_ages h;
  maternal_grandmother_onset_ages := maternal_grandmother_onset_ages h;
  paternal_grandmother_onset_ages := paternal_grandmother_onset_ages h;
  maternal_half_sister_onset_ages := maternal_half_sister_onset_ages h;
  paternal_half_sister_onset_ages := paternal_half_sister_onset_ages h
|}.

Definition with_daughters (l : list Z) (h : history) : history := {|
  mother_onset_age := mother_onset_age h;
  daughter_onset_ages := map Some l;
  full_sister_onset_ages := full_sister_onset_ages h;
  maternal_aunt_onset_ages := maternal_aunt_onset_ages h;
  paternal_aunt_onset_ages := paternal_aunt_onset_ages h;
  maternal_grandmother_onset_ages := maternal_grandmother_onset_ages h;
  paternal_grandmother_onset_ages := paternal_grandmother_onset_ages h;
  maternal_half_sister_onset_ages := maternal_half_sister_onset_ages h;
  paternal_half_sister_onset_ages := paternal_half_sister_onset_ages h
|}.

(** * Properties *)

(** ** The exception monad *)

Lemma bind_Ok {A B} (a : A) (k : A -> result B) : (Ok a ≫= k) = k a.
Proof. reflexivity. Qed.

Lemma bind_Raise {A B} e (k : A -> result B) : (Raise e ≫= k) = Raise e.
Proof. reflexivity. Qed.

Lemma bind_ret_r {A} (m : result A) : (a ← m; Ok a) = m.
Proof. destruct m; reflexivity. Qed.

Lemma bind_assoc {A B C} (m : result A) (f : A -> result B) (g : B -> result C) :
  (b ← (a ← m; f a); g b) = (a ← m; b ← f a; g b).
Proof. destruct m; reflexivity. Qed.

Lemma foldM_app {S A} (f : S -> A -> result S) s l1 l2 :
  foldM f s (l1 ++ l2) = (s' ← foldM f s l1; foldM f s' l2).
Proof.
  revert s. induction l1 as [| x l1 IH]; intros s; simpl; [reflexivity |].
  destruct (f s x); simpl; [apply IH | reflexivity].
Qed.

Lemma foldM_ext_map {S A B} (f : S -> A -> result S) (g : S -> B -> result S)
    (k : A -> B) s l :
  (forall s x, f s x = g s (k x)) -> foldM f s l = foldM g s (map k l).
Proof.
  intros Hfg. revert s. induction l as [| x l IH]; intros s; simpl; [reflexivity |].
  rewrite Hfg. destruct (g s (k x)); simpl; [apply IH | reflexivity].
Qed.

Lemma mapM_Ok_elem_of {A B} (f : A -> result B) l k y :
  mapM f l = Ok k -> y ∈ k -> exists x, x ∈ l /\ f x = Ok y.
Proof.
  revert k. induction l as [| x l IH]; intros k; simpl.
  - intros [= <-] Hy. inversion Hy.
  - destruct (f x) as [b | e] eqn:Ef; [| discriminate]. rewrite bind_Ok.
    destruct (mapM f l) as [k' | e]; [| discriminate]. rewrite bind_Ok.
    intros [= <-] Hy. apply elem_of_cons in Hy as [-> | Hy].
    + exists x. split; [left | exact Ef].
    + destruct (IH k' eq_refl Hy) as (x' & Hx' & Hfx').
      exists x'. split; [right; exact Hx' | exact Hfx'].
Qed.

(** ** The patient-age guard *)

Lemma age_guard_false patient_age : age_guard patient_age = false.
Proof.
  unfold age_guard, VALID_MAX_AGE, VALID_MIN_AGE.
  apply andb_false_iff.
  destruct (Z.ltb_spec 79 patient_age); [right | left; reflexivity].
  apply Z.ltb_ge. lia.
Qed.

Section Structure.

Context {num : Type} {N : PyNum num}.

(** ** [get_lifetime_risk] *)

Lemma py_truediv_Ok (x y : num) :
  num_is_zero y = false -> py_truediv x y = Ok (num_div x y).
Proof. intros Hy. unfold py_truediv. rewrite Hy. reflexivity. Qed.

Lemma py_truediv_inv (x y q : num) :
  py_truediv x y = Ok q -> num_is_zero y = false /\ q = num_div x y.
Proof.
  unfold py_truediv. destruct (num_is_zero y); [discriminate |].
  intros [= <-]. split; reflexivity.
Qed.

Lemma get_lifetime_risk_cells tie (table : pyval num) patient_age r1 r2 L c0 u :
  _lookup_claus_table table (-1) r1 r2 = Ok (PNum L) ->
  _lookup_claus_table table ((patient_age - 29) / 10) r1 r2 = Ok (PNum c0) ->
  ((patient_age - 29) mod 10 <> 0 ->
   _lookup_claus_table table ((patient_age - 29) / 10 + 1) r1 r2 = Ok (PNum u)) ->
  get_lifetime_risk tie table patient_age r1 r2 =
    (let c := interpolate c0 u ((patient_age - 29) mod 10) in
     q ← py_truediv (num_sub L c) (num_sub (num_of_Z 1) c);
     Ok (num_round3 tie q)).
Proof.
  intros HL Hc Hu. unfold get_lifetime_risk, interpolate.
  rewrite HL, bind_Ok, Hc, bind_Ok.
  destruct (Z.eqb_spec ((patient_age - 29) mod 10) 0) as [E | E].
  - reflexivity.
  - rewrite (Hu E). reflexivity.
Qed.

(** What a successful call of [get_lifetime_risk] has read and computed. *)
Lemma get_lifetime_risk_inv tie (table : pyval num) patient_age r1 r2 r :
  get_lifetime_risk tie table patient_age r1 r2 = Ok r ->
  exists L c0 u,
    _lookup_claus_table table (-1) r1 r2 = Ok (PNum L) /\
    _lookup_claus_table table ((patient_age - 29) / 10) r1 r2 = Ok (PNum c0) /\
    ((patient_age - 29) mod 10 <> 0 ->
     _lookup_claus_table table ((patient_age - 29) / 10 + 1) r1 r2 = Ok (PNum u)) /\
    ((patient_age - 29) mod 10 = 0 -> u = c0) /\
    let c := interpolate c0 u ((patient_age - 29) mod 10) in
    num_is_zero (num_sub (num_of_Z 1) c) = false /\
    r = num_round3 tie (num_div (num_sub L c) (num_sub (num_of_Z 1) c)).
Proof.
  unfold get_lifetime_risk, interpolate.
  destruct (_lookup_claus_table table (-1) r1 r2) as [vL | e]; [| discriminate].
  rewrite bind_Ok.
  destruct (_lookup_claus_table table ((patient_age - 29) / 10) r1 r2)
    as [vc | e]; [| discriminate].
  rewrite bind_Ok.
  destruct (Z.eqb_spec ((patient_age - 29) mod 10) 0) as [E | E].
  - rewrite bind_Ok.
    destruct vL as [L | ?]; [| discriminate].
    destruct vc as [c0 | ?]; [| discriminate].
    cbn [as_num]. rewrite !bind_Ok.
    destruct (py_truediv _ _) as [q |] eqn:Eq; [| discriminate].
    rewrite bind_Ok. intros [= <-].
    apply py_truediv_inv in Eq as [Hnz ->].
    exists L, c0, c0. repeat split; try reflexivity; try assumption.
    intros H. contradiction.
  - destruct (_lookup_claus_table table ((patient_age - 29) / 10 + 1) r1 r2)
      as [vu | e]; [| discriminate].
    rewrite bind_Ok.
    destruct vu as [u | ?]; [| discriminate].
    destruct vc as [c0 | ?]; [| discriminate].
    cbn [as_num]. rewrite !bind_Ok.
    destruct vL as [L | ?]; [| discriminate].
    cbn [as_num]. rewrite !bind_Ok.
    destruct (py_truediv _ _) as [q |] eqn:Eq; [| discriminate].
    rewrite bind_Ok. intros [= <-].
    apply py_truediv_inv in Eq as [Hnz ->].
    exists L, c0, u. repeat split; try reflexivity; try assumption.
    intros H. contradiction.
Qed.

(** ** [calculate_risk] as a fold over the steps *)

Lemma one_relative_step tie age (risk : num) ages table :
  one_relative tie age risk (ages, table) =
  apply_step tie age risk (Ok (single_step ages table)).
Proof. destruct ages; reflexivity. Qed.

Lemma mother_and_aunt_step tie age m (risk : num) ages table :
  m <> 0 ->
  mother_and_aunt tie age m risk (ages, table) =
  apply_step tie age risk (mother_aunt_step (Some m) ages table).
Proof.
  intros Hm. unfold mother_and_aunt, mother_aunt_step, apply_step.
  destruct (Z.eqb_spec m 0); [contradiction |].
  destruct (sort_ages_entries ages) as [[| a0 rest] | e]; reflexivity.
Qed.

Lemma two_relatives_step tie age (risk : num) ages table :
  two_relatives tie age risk (ages, table) =
  apply_step tie age risk (Ok (pair_step ages table)).
Proof. destruct ages as [| a0 [| a1 ages]]; reflexivity. Qed.

Lemma opposite_sides_step tie (T : claus_tables num) age risk maternal paternal :
  opposite_sides tie T age risk maternal paternal =
  apply_step tie age risk
    (Ok (opposite_step maternal paternal (TWO_SEC_DEG_DIFF_SIDE_TABLE T))).
Proof. destruct maternal, paternal; reflexivity. Qed.

Lemma foldM_none tie age (risk : num) (l : list (result (option (lookup_req num)))) :
  Forall (fun s => s = Ok None) l -> foldM (apply_step tie age) risk l = Ok risk.
Proof.
  induction 1 as [| s l Hs _ IH]; simpl; [reflexivity |].
  subst s. simpl. exact IH.
Qed.

Lemma calculate_risk_steps tie (T : claus_tables num) age h :
  calculate_risk tie T age h =
  (risk ← foldM (apply_step tie age) (num_of_Z 0) (steps T h);
   Ok (positive_or_none risk)).
Proof.
  unfold calculate_risk. rewrite age_guard_false.
  change (steps T h) with
    ([ Ok (single_step (first_degree_ages h) (ONE_FIRST_DEG_TABLE T));
       Ok (single_step (second_degree_ages h) (ONE_SECOND_DEG_TABLE T)) ] ++
     [ mother_aunt_step (mother_onset_age h) (maternal_aunt_onset_ages h)
         (MOTHER_MATERNAL_AUNT T);
       mother_aunt_step (mother_onset_age h) (paternal_aunt_onset_ages h)
         (MOTHER_PATERNAL_AUNT T) ] ++
     [ Ok (pair_step (first_degree_ages h) (TWO_FIRST_DEG_TABLE T));
       Ok (pair_step (maternal_second_degree_ages h) (TWO_SEC_DEG_SAME_SIDE_TABLE T));
       Ok (pair_step (paternal_second_degree_ages h) (TWO_SEC_DEG_SAME_SIDE_TABLE T)) ] ++
     [ Ok (opposite_step (maternal_second_degree_ages h)
             (paternal_second_degree_ages h) (TWO_SEC_DEG_DIFF_SIDE_TABLE T)) ]).
  rewrite foldM_app, bind_assoc.
  rewrite (foldM_ext_map (one_relative tie age) (apply_step tie age)
             (fun it => Ok (single_step (fst it) (snd it))))
    by (intros s [ages table]; apply one_relative_step).
  simpl map.
  destruct (foldM (apply_step tie age) (num_of_Z 0) _) as [risk1 | e];
    [| reflexivity].
  rewrite !bind_Ok, foldM_app, bind_assoc.
  assert (Hmother :
    match mother_onset_age h with
    | Some mother =>
        if mother =? 0 then Ok risk1
        else foldM (mother_and_aunt tie age mother) risk1
               [(maternal_aunt_onset_ages h, MOTHER_MATERNAL_AUNT T);
                (paternal_aunt_onset_ages h, MOTHER_PATERNAL_AUNT T)]
    | None => Ok risk1
    end =
    foldM (apply_step tie age) risk1
      [ mother_aunt_step (mother_onset_age h) (maternal_aunt_onset_ages h)
          (MOTHER_MATERNAL_AUNT T);
        mother_aunt_step (mother_onset_age h) (paternal_aunt_onset_ages h)
          (MOTHER_PATERNAL_AUNT T) ]).
  { destruct (mother_onset_age h) as [m |]; [| reflexivity].
    destruct (Z.eqb_spec m 0) as [-> | Hm]; [reflexivity |].
    apply (foldM_ext_map (mother_and_aunt tie age m) (apply_step tie age)
             (fun it : list (option Z) * pyval num =>
                mother_aunt_step (Some m) (fst it) (snd it))).
    intros s [ages table]. apply mother_and_aunt_step, Hm. }
  rewrite Hmother. clear Hmother.
  destruct (foldM (apply_step tie age) risk1 _) as [risk2 | e]; [| reflexivity].
  rewrite !bind_Ok, foldM_app, bind_assoc.
  rewrite (foldM_ext_map (two_relatives tie age) (apply_step tie age)
             (fun it => Ok (pair_step (fst it) (snd it))))
    by (intros s [ages table]; apply two_relatives_step).
  simpl map.
  destruct (foldM (apply_step tie age) risk2 _) as [risk3 | e]; [| reflexivity].
  rewrite !bind_Ok, opposite_sides_step. simpl foldM.
  rewrite bind_ret_r. reflexivity.
Qed.

Lemma foldM_apply_step tie age (risk : num)
    (l : list (result (option (lookup_req num)))) :
  foldM (apply_step tie age) risk l =
  (cs ← mapM (candidate tie age) (planned l).1;
   match (planned l).2 with
   | Some e => Raise e
   | None => Ok (foldl py_max risk cs)
   end).
Proof.
  revert risk. induction l as [| [[s |] | e] l IH]; intros risk; simpl.
  - reflexivity.
  - destruct (planned l) as [qs oe] eqn:Epl. simpl in IH |- *.
    destruct (candidate tie age s) as [r | e]; simpl; [| reflexivity].
    rewrite IH. destruct (mapM _ _); reflexivity.
  - apply IH.
  - reflexivity.
Qed.

Lemma calculate_risk_candidates tie (T : claus_tables num) age h :
  calculate_risk tie T age h =
  (cs ← candidates tie T age h; Ok (positive_or_none (max_risk cs))).
Proof.
  rewrite calculate_risk_steps, foldM_apply_step.
  unfold candidates, applicable_steps, max_risk.
  destruct (mapM _ _) as [cs | e]; [| reflexivity].
  rewrite !bind_Ok. destruct (planned (steps T h)).2; reflexivity.
Qed.

End Structure.

(** ** Sorting and filtering of ages *)

Lemma sorted_Permutation l : sorted l ≡ₚ l.
Proof. apply merge_sort_Permutation. Qed.

Lemma sorted_StronglySorted l : StronglySorted Z.le (sorted l).
Proof. apply StronglySorted_merge_sort; apply _. Qed.

Lemma sorted_proper l1 l2 : l1 ≡ₚ l2 -> sorted l1 = sorted l2.
Proof.
  intros Hp. apply (StronglySorted_unique Z.le); try apply sorted_StronglySorted.
  rewrite !sorted_Permutation. exact Hp.
Qed.

Lemma sort_ages_proper l1 l2 : l1 ≡ₚ l2 -> sort_ages l1 = sort_ages l2.
Proof. intros Hp. apply sorted_proper. rewrite Hp. reflexivity. Qed.

Lemma elem_of_sort_ages x l : x ∈ sort_ages l <-> in_valid_range x /\ x ∈ l.
Proof. unfold sort_ages. rewrite sorted_Permutation. apply list_elem_of_filter. Qed.

Lemma sort_ages_valid l : Forall in_valid_range (sort_ages l).
Proof. apply list.Forall_forall. intros x Hx. apply elem_of_sort_ages in Hx. tauto. Qed.

Lemma sort_ages_StronglySorted l : StronglySorted Z.le (sort_ages l).
Proof. apply sorted_StronglySorted. Qed.

Lemma sort_ages_out_of_range a l :
  ~ in_valid_range a -> sort_ages (a :: l) = sort_ages l.
Proof.
  intros Ha. unfold sort_ages. rewrite filter_cons, decide_False by exact Ha.
  reflexivity.
Qed.

Lemma sort_ages_singleton a : in_valid_range a -> sort_ages [a] = [a].
Proof.
  intros Ha. unfold sort_ages.
  rewrite filter_cons, decide_True by exact Ha. reflexivity.
Qed.

(** The youngest age in the valid range is the head of [sort_ages]. *)
Lemma sort_ages_head a l :
  a ∈ l -> in_valid_range a ->
  (forall b, b ∈ l -> in_valid_range b -> a <= b) ->
  exists rest, sort_ages l = a :: rest.
Proof.
  intros Hin Ha Hmin.
  assert (Hel : a ∈ sort_ages l) by (apply elem_of_sort_ages; tauto).
  pose proof (sort_ages_StronglySorted l) as Hs.
  destruct (sort_ages l) as [| x rest] eqn:E; [inversion Hel |].
  exists rest. f_equal.
  assert (Hx : x ∈ sort_ages l) by (rewrite E; left).
  apply elem_of_sort_ages in Hx as [Hxr Hxl].
  apply StronglySorted_inv in Hs as [_ Hall].
  apply Z.le_antisymm; [| apply Hmin; assumption].
  apply elem_of_cons in Hel as [-> | Hel]; [reflexivity |].
  rewrite list.Forall_forall in Hall. apply Hall, Hel.
Qed.

Lemma sort_ages_nil l :
  (forall b, b ∈ l -> ~ in_valid_range b) -> sort_ages l = [].
Proof.
  intros Hout. destruct (sort_ages l) as [| x rest] eqn:E; [reflexivity |].
  assert (Hx : x ∈ sort_ages l) by (rewrite E; left).
  apply elem_of_sort_ages in Hx as [Hxr Hxl].
  destruct (Hout x Hxl Hxr).
Qed.

(** *** Lists with [None] entries *)

Lemma elem_of_integers a l : a ∈ integers l <-> Some a ∈ l.
Proof.
  unfold integers. rewrite list_elem_of_omap. split.
  - intros (x & Hx & E). unfold id in E. subst x. exact Hx.
  - intros H. exists (Some a). split; [exact H | reflexivity].
Qed.

Lemma integers_app l1 l2 : integers (l1 ++ l2) = integers l1 ++ integers l2.
Proof. apply omap_app. Qed.

Lemma integers_map_Some l : integers (map Some l) = l.
Proof.
  induction l as [| a l IH]; [reflexivity |]. simpl. cbn. f_equal. exact IH.
Qed.

Lemma integers_proper l1 l2 : l1 ≡ₚ l2 -> integers l1 ≡ₚ integers l2.
Proof. intros Hp. unfold integers. rewrite Hp. reflexivity. Qed.

Lemma truthy_ages_app l1 l2 :
  truthy_ages (l1 ++ l2) = truthy_ages l1 ++ truthy_ages l2.
Proof. apply omap_app. Qed.

Lemma truthy_ages_cons_Some a l :
  truthy_ages (Some a :: l)
    = if a =? 0 then truthy_ages l else a :: truthy_ages l.
Proof. unfold truthy_ages. cbn. destruct (a =? 0); reflexivity. Qed.

Lemma integers_cons_Some a l : integers (Some a :: l) = a :: integers l.
Proof. reflexivity. Qed.

(** The filter [if x] is subsumed by the range filter: 0 is not a valid
    age. *)
Lemma sort_ages_truthy l : sort_ages (truthy_ages l) = sort_ages (integers l).
Proof.
  unfold sort_ages. f_equal.
  induction l as [| [a |] l IH]; [reflexivity | | exact IH].
  rewrite truthy_ages_cons_Some, integers_cons_Some.
  destruct (Z.eqb_spec a 0) as [-> | Ha].
  - rewrite (filter_cons _ 0), decide_False; [exact IH |].
    unfold in_valid_range, VALID_MIN_AGE. lia.
  - rewrite !filter_cons, IH. reflexivity.
Qed.

Lemma sort_ages_entries_integers l :
  None ∉ l -> sort_ages_entries l = Ok (sort_ages (integers l)).
Proof.
  intros H. unfold sort_ages_entries. rewrite decide_False by exact H.
  reflexivity.
Qed.

Lemma sort_ages_entries_None l :
  None ∈ l -> sort_ages_entries l = Raise TypeError.
Proof.
  intros H. unfold sort_ages_entries. rewrite decide_True by exact H.
  reflexivity.
Qed.

Lemma None_not_in_map_Some (l : list Z) : None ∉ map Some l.
Proof.
  intros H. apply list_elem_of_fmap in H as (a & E & _). discriminate.
Qed.

Lemma sort_ages_entries_map_Some l :
  sort_ages_entries (map Some l) = Ok (sort_ages l).
Proof.
  rewrite sort_ages_entries_integers by apply None_not_in_map_Some.
  rewrite integers_map_Some. reflexivity.
Qed.

Lemma sort_ages_entries_proper l1 l2 :
  l1 ≡ₚ l2 -> sort_ages_entries l1 = sort_ages_entries l2.
Proof.
  intros Hp. unfold sort_ages_entries.
  destruct (decide (None ∈ l1)) as [H1 | H1].
  - rewrite decide_True by (rewrite <- Hp; exact H1). reflexivity.
  - rewrite decide_False by (rewrite <- Hp; exact H1).
    f_equal. apply sort_ages_proper, integers_proper, Hp.
Qed.

Lemma sort_ages_entries_valid l ages :
  sort_ages_entries l = Ok ages -> Forall in_valid_range ages.
Proof.
  unfold sort_ages_entries. destruct (decide _); [discriminate |].
  intros [= <-]. apply sort_ages_valid.
Qed.

Lemma bin_age_nonzero a : a <> 0 -> _bin_age_to_index a = Some ((a - 20) / 10).
Proof.
  intros Ha. unfold _bin_age_to_index.
  destruct (Z.eqb_spec a 0); [contradiction | reflexivity].
Qed.

(** ** The patient-age bound *)

(** C1: the spec asks for "no result" for every patient age outside [20,79].
    The guard of the code, [VALID_MAX_AGE < patient_age < VALID_MIN_AGE],
    holds for no integer, so the bound is never enforced: with the sample
    tables a patient of age 15 whose mother had an onset at 45 gets a risk,
    and for a patient of age 85 the lookup runs past the last row. *)
Theorem calculate_risk_age_bound_not_enforced tie :
  (forall patient_age, age_guard patient_age = false) /\
  calculate_risk tie sample_tables 15 (with_mother 45 no_history)
    = Ok (Some (14 # 1000)) /\
  calculate_risk tie sample_tables 85 (with_mother 45 no_history)
    = Raise IndexError.
Proof.
  split; [apply age_guard_false |].
  destruct tie; vm_compute; split; reflexivity.
Qed.

(** The same two calls in binary64 arithmetic: 0.014 and the exception. *)
Lemma calculate_risk_age_bound_not_enforced_binary64 :
  calculate_risk HalfEven sample_tables_binary64 15 (with_mother 45 no_history)
    = Ok (Some (Binary64.of_ratio 14 1000)) /\
  calculate_risk HalfEven sample_tables_binary64 85 (with_mother 45 no_history)
    = Raise IndexError.
Proof. vm_compute. split; reflexivity. Qed.

(** ** The interpolation routine *)

(** C2: [get_lifetime_risk] reads the lifetime risk [L] at row [-1], splits
    [patient_age - 29] into a bin index [p] and a remainder by [divmod],
    reads the current-age risk [c0] at row [p], replaces it when the
    remainder is not zero by [c0 + (u - c0) * remainder / 10], [u] being the
    value at row [p + 1], and returns [round((L - c) / (1 - c), 3)].  The
    operations are those of the arithmetic in use, binary64 included. *)
Theorem get_lifetime_risk_formula {num} {N : PyNum num} tie (table : pyval num)
    patient_age r1 r2 p remainder L c0 u :
  patient_age - 29 = 10 * p + remainder ->
  0 <= remainder < 10 ->
  _lookup_claus_table table (-1) r1 r2 = Ok (PNum L) ->
  _lookup_claus_table table p r1 r2 = Ok (PNum c0) ->
  (remainder <> 0 -> _lookup_claus_table table (p + 1) r1 r2 = Ok (PNum u)) ->
  let c := if remainder =? 0 then c0
           else num_add c0 (num_div (num_mul (num_sub u c0) (num_of_Z remainder))
                                    (num_of_Z 10)) in
  num_is_zero (num_sub (num_of_Z 1) c) = false ->
  get_lifetime_risk tie table patient_age r1 r2
    = Ok (num_round3 tie (num_div (num_sub L c) (num_sub (num_of_Z 1) c))).
Proof.
  intros Hdiv Hrem HL Hc Hu c Hnz.
  assert (Hp : (patient_age - 29) / 10 = p)
    by (symmetry; apply (Z.div_unique _ _ _ remainder); [left |]; lia).
  assert (Hr : (patient_age - 29) mod 10 = remainder)
    by (symmetry; apply (Z.mod_unique _ _ p); [left |]; lia).
  rewrite (get_lifetime_risk_cells tie table patient_age r1 r2 L c0 u);
    rewrite ?Hp, ?Hr; try assumption.
  cbv zeta. fold (interpolate c0 u remainder).
  change (interpolate c0 u remainder) with c.
  rewrite py_truediv_Ok by exact Hnz. reflexivity.
Qed.

(** In binary64, with the cells 0.432 (lifetime) and 0.36 (row 4) of the
    sample two-first-degree table at bins (1,5), a patient of 69 gets 0.113,
    the rounding of 0.11250000000000002. *)
Lemma get_lifetime_risk_formula_witness :
  get_lifetime_risk HalfEven (TWO_FIRST_DEG_TABLE sample_tables_binary64) 69
    (Some 1) (Some 5) = Ok (Binary64.of_ratio 113 1000).
Proof.
  rewrite (get_lifetime_risk_formula HalfEven
             (TWO_FIRST_DEG_TABLE sample_tables_binary64) 69 (Some 1) (Some 5)
             4 0 (Binary64.of_ratio 432 1000) (Binary64.of_ratio 360 1000)
             (Binary64.of_ratio 360 1000)).
  - vm_compute. reflexivity.
  - reflexivity.
  - lia.
  - vm_compute. reflexivity.
  - vm_compute. reflexivity.
  - intros H. contradiction.
  - vm_compute. reflexivity.
Defined.

(** The same call in exact rational arithmetic gives 0.112: the quotient is
    exactly 0.1125 and the tie goes to the even digit. *)
Lemma get_lifetime_risk_exact_differs :
  get_lifetime_risk HalfEven (TWO_FIRST_DEG_TABLE sample_tables) 69
    (Some 1) (Some 5) = Ok (112 # 1000).
Proof. vm_compute. reflexivity. Qed.

(** C10: for a patient aged 20 to 28 the lower bin index is [-1], the index
    of the lifetime row, and the remainder [patient_age - 19] is not zero: the
    current-age risk starts from the lifetime risk [L] itself and is
    interpolated towards row 0, whatever the arithmetic. *)
Theorem get_lifetime_risk_below_29 {num} {N : PyNum num} tie (table : pyval num)
    patient_age r1 r2 L u :
  20 <= patient_age <= 28 ->
  _lookup_claus_table table (-1) r1 r2 = Ok (PNum L) ->
  _lookup_claus_table table 0 r1 r2 = Ok (PNum u) ->
  (patient_age - 29) / 10 = -1 /\
  (patient_age - 29) mod 10 = patient_age - 19 /\
  patient_age - 19 <> 0 /\
  get_lifetime_risk tie table patient_age r1 r2 =
    (let c := num_add L (num_div (num_mul (num_sub u L)
                                          (num_of_Z (patient_age - 19)))
                                 (num_of_Z 10)) in
     q ← py_truediv (num_sub L c) (num_sub (num_of_Z 1) c);
     Ok (num_round3 tie q)).
Proof.
  intros Hage HL Hu.
  assert (Hp : (patient_age - 29) / 10 = -1)
    by (symmetry; apply (Z.div_unique _ _ _ (patient_age - 19)); [left |]; lia).
  assert (Hr : (patient_age - 29) mod 10 = patient_age - 19)
    by (symmetry; apply (Z.mod_unique _ _ (-1)); [left |]; lia).
  repeat split; try assumption; try lia.
  rewrite (get_lifetime_risk_cells tie table patient_age r1 r2 L L u);
    rewrite ?Hp, ?Hr; try assumption; [| intros _; exact Hu].
  unfold interpolate.
  destruct (Z.eqb_spec (patient_age - 19) 0); [lia | reflexivity].
Qed.

(** In binary64, age 21 at bins (1,5) of the sample two-first-degree table:
    the lifetime cell 0.432 interpolated towards 0.072 gives 0.113. *)
Lemma get_lifetime_risk_below_29_witness :
  get_lifetime_risk HalfEven (TWO_FIRST_DEG_TABLE sample_tables_binary64) 21
    (Some 1) (Some 5) = Ok (Binary64.of_ratio 113 1000).
Proof.
  destruct (get_lifetime_risk_below_29 HalfEven
              (TWO_FIRST_DEG_TABLE sample_tables_binary64) 21 (Some 1) (Some 5)
              (Binary64.of_ratio 432 1000) (Binary64.of_ratio 72 1000))
    as (_ & _ & _ & ->).
  - lia.
  - vm_compute. reflexivity.
  - vm_compute. reflexivity.
  - vm_compute. reflexivity.
Defined.

(** ** The mother-plus-aunt step *)

(** C4, as the spec states it, fails: the aunt ages do pass the range filter
    of [sort_ages].  With aunts aged 15 and 45 the code indexes the table by
    the aunt aged 45, the spec's wording by the one aged 15. *)
Lemma mother_and_aunt_not_unfiltered :
  mother_and_aunt HalfEven 40 45 0%Q
    ([Some 15; Some 45], MOTHER_MATERNAL_AUNT sample_tables)
  <> mother_and_aunt_unfiltered HalfEven 40 45 0%Q
       ([15; 45], MOTHER_MATERNAL_AUNT sample_tables).
Proof. vm_compute. discriminate. Qed.

(** C4 (amended): when every entry of the aunt list is an integer, the
    mother-and-aunt table is indexed by the mother's age bin and the bin of
    the youngest aunt age within [20,79]: the aunt ages used are the supplied
    list filtered to the valid range and sorted ascending, and when no
    supplied aunt age is in the range the step leaves the risk unchanged.
    When the list holds a [None] entry the step raises [TypeError]. *)
Theorem mother_and_aunt_youngest_valid {num} {N : PyNum num} tie patient_age
    mother (risk : num) aunts table :
  (forall a, None ∉ aunts -> Some a ∈ aunts -> in_valid_range a ->
     (forall b, Some b ∈ aunts -> in_valid_range b -> a <= b) ->
     mother_and_aunt tie patient_age mother risk (aunts, table) =
       (r ← get_lifetime_risk tie table patient_age
              (_bin_age_to_index mother) (_bin_age_to_index a);
        Ok (py_max risk r))) /\
  (None ∉ aunts -> (forall b, Some b ∈ aunts -> ~ in_valid_range b) ->
     mother_and_aunt tie patient_age mother risk (aunts, table) = Ok risk) /\
  (None ∈ aunts ->
     mother_and_aunt tie patient_age mother risk (aunts, table)
       = Raise TypeError).
Proof.
  repeat split.
  - intros a Hint Hin Ha Hmin. unfold mother_and_aunt.
    rewrite (sort_ages_entries_integers aunts Hint), bind_Ok.
    destruct (sort_ages_head a (integers aunts)) as [rest ->];
      [apply elem_of_integers, Hin | exact Ha | | reflexivity].
    intros b Hb. apply Hmin, elem_of_integers, Hb.
  - intros Hint Hout. unfold mother_and_aunt.
    rewrite (sort_ages_entries_integers aunts Hint), bind_Ok.
    rewrite sort_ages_nil; [reflexivity |].
    intros b Hb. apply Hout, elem_of_integers, Hb.
  - intros Hnone. unfold mother_and_aunt.
    rewrite (sort_ages_entries_None aunts Hnone). reflexivity.
Qed.

Lemma mother_and_aunt_youngest_valid_witness :
  mother_and_aunt HalfEven 40 45 0%Q
    ([Some 15; Some 45], MOTHER_MATERNAL_AUNT sample_tables)
    = Ok (320 # 1000).
Proof.
  rewrite (proj1 (mother_and_aunt_youngest_valid HalfEven 40 45 0%Q
                    [Some 15; Some 45]
                    (MOTHER_MATERNAL_AUNT sample_tables)) 45).
  - vm_compute. reflexivity.
  - rewrite !elem_of_cons, elem_of_nil. intros [H | [H | H]];
      try discriminate H; exact H.
  - rewrite !elem_of_cons. auto.
  - unfold in_valid_range, VALID_MAX_AGE, VALID_MIN_AGE. lia.
  - intros b Hb Hr. unfold in_valid_range, VALID_MIN_AGE in Hr.
    apply elem_of_cons in Hb as [[= ->] | Hb]; [lia |].
    apply elem_of_cons in Hb as [[= ->] | Hb]; [lia | inversion Hb].
Defined.

(** A [None] next to a valid aunt age: the step raises. *)
Lemma mother_and_aunt_None_entry :
  mother_and_aunt HalfEven 40 45 0%Q
    ([None; Some 45], MOTHER_MATERNAL_AUNT sample_tables)
    = Raise TypeError.
Proof. reflexivity. Qed.

(** ** The mother's age is not range-filtered *)

Lemma py_getitem_elem_of {num} (l : list (pyval num)) i x :
  py_getitem (PList l) (Some i) = Ok x -> x ∈ l.
Proof.
  unfold py_getitem.
  destruct (_ && _); [| discriminate].
  destruct (nth_error l _) as [y |] eqn:E; [| discriminate].
  intros [= <-]. apply list_elem_of_In. eapply nth_error_In, E.
Qed.

Lemma py_getitem_last {num} (l : list (pyval num)) :
  l <> [] -> exists x, py_getitem (PList l) (Some (-1)) = Ok x.
Proof.
  intros Hl. unfold py_getitem.
  assert (Hlen : (0 < length l)%nat) by (destruct l; [contradiction | simpl; lia]).
  replace (-1 <? 0) with true by reflexivity.
  replace ((0 <=? -1 + Z.of_nat (length l)) && (-1 + Z.of_nat (length l) <? Z.of_nat (length l)))
    with true by (symmetry; apply andb_true_iff; split; [apply Z.leb_le | apply Z.ltb_lt]; lia).
  destruct (nth_error l _) as [y |] eqn:E; [eauto |].
  apply nth_error_None in E. lia.
Qed.

Lemma py_getitem_out_of_range {num} (l : list (pyval num)) i :
  Z.of_nat (length l) <= i -> py_getitem (PList l) (Some i) = Raise IndexError.
Proof.
  intros Hi. unfold py_getitem.
  replace (i <? 0) with false by (symmetry; apply Z.ltb_ge; lia).
  replace (i <? Z.of_nat (length l)) with false by (symmetry; apply Z.ltb_ge; lia).
  rewrite andb_false_r. reflexivity.
Qed.

Lemma lookup_beyond_relative_bins {num} n (table : pyval num) i j :
  has_relative_bins n table = true -> Z.of_nat n <= i ->
  _lookup_claus_table table (-1) (Some i) (Some j) = Raise IndexError.
Proof.
  intros Hshape Hi. unfold _lookup_claus_table.
  destruct table as [q | [| row rows]]; try discriminate.
  destruct (py_getitem_last (row :: rows)) as [x Hx]; [discriminate |].
  rewrite Hx, bind_Ok.
  apply py_getitem_elem_of in Hx.
  unfold has_relative_bins in Hshape.
  rewrite forallb_forall in Hshape.
  apply list_elem_of_In, Hshape in Hx.
  destruct x as [q | cols]; [discriminate |].
  apply Nat.eqb_eq in Hx. subst n.
  rewrite py_getitem_out_of_range by exact Hi. reflexivity.
Qed.

Lemma apply_step_None {num} {N : PyNum num} tie patient_age (risk : num) :
  apply_step tie patient_age risk (Ok None) = Ok risk.
Proof. reflexivity. Qed.

Lemma apply_step_Some {num} {N : PyNum num} tie patient_age (risk : num) q :
  apply_step tie patient_age risk (Ok (Some q)) =
  (r ← candidate tie patient_age q; Ok (py_max risk r)).
Proof. reflexivity. Qed.

Lemma apply_step_Raise {num} {N : PyNum num} tie patient_age (risk : num) e :
  apply_step tie patient_age risk (Raise e) = Raise e.
Proof. reflexivity. Qed.

Lemma mother_aunt_step_truthy {num} m aunts (table : pyval num) :
  m <> 0 ->
  mother_aunt_step (Some m) aunts table =
  (ages ← sort_ages_entries aunts;
   Ok (match ages with
       | a0 :: _ => Some (table, _bin_age_to_index m, _bin_age_to_index a0)
       | [] => None
       end)).
Proof.
  intros Hm. unfold mother_aunt_step.
  destruct (Z.eqb_spec m 0); [contradiction | reflexivity].
Qed.

(** C9: a mother's onset age above 79 is binned without range filtering.
    For a mother aged [m >= 80] and one maternal aunt of valid age [a] the
    bin index of the mother is 6 or more, every derived age list holds only
    ages in [20,79], and as soon as the one-second-degree lookup succeeded
    the lookup in a mother-and-maternal-aunt table with six relative bins
    raises the out-of-bounds error. *)
Theorem mother_above_range_index_error {num} {N : PyNum num} tie
    (T : claus_tables num) patient_age m a r :
  80 <= m -> in_valid_range a ->
  has_relative_bins 6 (MOTHER_MATERNAL_AUNT T) = true ->
  get_lifetime_risk tie (ONE_SECOND_DEG_TABLE T) patient_age
    (_bin_age_to_index a) None = Ok r ->
  let h := with_mother m (with_maternal_aunts [a] no_history) in
  (exists i, _bin_age_to_index m = Some i /\ 6 <= i) /\
  Forall in_valid_range
    (first_degree_ages h ++ second_degree_ages h ++
     maternal_second_degree_ages h ++ paternal_second_degree_ages h ++
     sort_ages (integers (maternal_aunt_onset_ages h))) /\
  calculate_risk tie T patient_age h = Raise IndexError.
Proof.
  intros Hm Ha Hshape Hsecond h.
  assert (Hm0 : m <> 0) by lia.
  assert (Hbin : 6 <= (m - 20) / 10) by (apply Z.div_le_lower_bound; lia).
  split; [| split].
  - exists ((m - 20) / 10). split; [apply bin_age_nonzero, Hm0 | exact Hbin].
  - rewrite !Forall_app. repeat split; apply sort_ages_valid.
  - rewrite calculate_risk_steps. unfold steps.
    assert (Hfd : first_degree_ages h = []).
    { unfold first_degree_ages.
      change (mother_onset_age h) with (Some m).
      change (full_sister_onset_ages h) with (@nil (option Z)).
      change (daughter_onset_ages h) with (@nil (option Z)).
      cbv beta iota zeta.
      destruct (Z.eqb_spec m 0); [contradiction |].
      rewrite sort_ages_truthy.
      change (integers ([Some m] ++ [] ++ [])) with [m].
      apply sort_ages_out_of_range.
      unfold in_valid_range, VALID_MAX_AGE. lia. }
    assert (Hsd : second_degree_ages h = [a]).
    { unfold second_degree_ages. rewrite sort_ages_truthy.
      change (integers _) with [a]. apply sort_ages_singleton, Ha. }
    rewrite Hfd, Hsd.
    change (mother_onset_age h) with (Some m).
    change (maternal_aunt_onset_ages h) with (map Some [a]).
    unfold mother_aunt_step at 1.
    destruct (Z.eqb_spec m 0); [contradiction |].
    rewrite sort_ages_entries_map_Some, bind_Ok, (sort_ages_singleton a Ha).
    cbn [foldM single_step].
    rewrite apply_step_None, bind_Ok. cbv beta.
    rewrite apply_step_Some.
    unfold candidate at 1. rewrite Hsecond, !bind_Ok. cbv beta.
    rewrite apply_step_Some.
    assert (Ha0 : a <> 0) by (unfold in_valid_range, VALID_MIN_AGE in Ha; lia).
    unfold candidate at 1, get_lifetime_risk at 1.
    rewrite (bin_age_nonzero m Hm0), (bin_age_nonzero a Ha0).
    rewrite (lookup_beyond_relative_bins 6) by (assumption || exact Hbin).
    reflexivity.
Qed.

Lemma mother_above_range_index_error_witness :
  calculate_risk HalfEven sample_tables 40
    (with_mother 85 (with_maternal_aunts [45] no_history)) = Raise IndexError.
Proof.
  apply (mother_above_range_index_error HalfEven sample_tables 40 85 45 (81 # 1000)).
  - lia.
  - unfold in_valid_range, VALID_MAX_AGE, VALID_MIN_AGE. lia.
  - reflexivity.
  - vm_compute. reflexivity.
Defined.

(** C7: the spec asks that an onset age outside [20,79] never influences the
    result.  The mother's onset age escapes the filter in the
    mother-plus-aunt step: next to one maternal aunt aged 45, a mother aged
    85 makes the call raise, and a mother aged 15 changes the risk, whereas
    the aunt alone gives 0.081. *)
Theorem mother_out_of_range_not_excluded tie :
  calculate_risk tie sample_tables 40 (with_maternal_aunts [45] no_history)
    = Ok (Some (81 # 1000)) /\
  calculate_risk tie sample_tables 40
    (with_mother 85 (with_maternal_aunts [45] no_history)) = Raise IndexError /\
  calculate_risk tie sample_tables 40
    (with_mother 15 (with_maternal_aunts [45] no_history))
    = Ok (Some (265 # 1000)).
Proof. destruct tie; vm_compute; repeat split; reflexivity. Qed.

(** The same three calls in binary64 arithmetic. *)
Lemma mother_out_of_range_not_excluded_binary64 :
  calculate_risk HalfEven sample_tables_binary64 40
    (with_maternal_aunts [45] no_history)
    = Ok (Some (Binary64.of_ratio 81 1000)) /\
  calculate_risk HalfEven sample_tables_binary64 40
    (with_mother 85 (with_maternal_aunts [45] no_history)) = Raise IndexError /\
  calculate_risk HalfEven sample_tables_binary64 40
    (with_mother 15 (with_maternal_aunts [45] no_history))
    = Ok (Some (Binary64.of_ratio 265 1000)).
Proof. vm_compute. repeat split; reflexivity. Qed.

(** ** The result is the largest candidate *)

Lemma py_max_Q (a b : Q) : py_max a b = if Qle_bool b a then a else b.
Proof. unfold py_max. cbn. destruct (Qle_bool b a); reflexivity. Qed.

Lemma positive_or_none_Q (risk : Q) :
  positive_or_none risk = if Qle_bool risk 0 then None else Some risk.
Proof. unfold positive_or_none. cbn. destruct (Qle_bool risk _); reflexivity. Qed.

Lemma py_max_cases {num} {N : PyNum num} (a b : num) :
  py_max a b = a \/ py_max a b = b.
Proof. unfold py_max. destruct (num_ltb a b); auto. Qed.

Lemma py_max_le_l (a b : Q) : (a <= py_max a b)%Q.
Proof.
  rewrite py_max_Q. destruct (Qle_bool b a) eqn:E; [apply Qle_refl |].
  destruct (Qlt_le_dec a b) as [Hlt | Hle]; [apply Qlt_le_weak, Hlt |].
  apply Qle_bool_iff in Hle. congruence.
Qed.

Lemma py_max_le_r (a b : Q) : (b <= py_max a b)%Q.
Proof.
  rewrite py_max_Q. destruct (Qle_bool b a) eqn:E; [| apply Qle_refl].
  apply Qle_bool_iff, E.
Qed.

Lemma foldl_py_max_le_init (r : Q) cs : (r <= foldl py_max r cs)%Q.
Proof.
  revert r. induction cs as [| c cs IH]; intros r; simpl; [apply Qle_refl |].
  eapply Qle_trans; [apply py_max_le_l | apply IH].
Qed.

Lemma foldl_py_max_upper (r : Q) cs c : c ∈ cs -> (c <= foldl py_max r cs)%Q.
Proof.
  revert r. induction cs as [| x cs IH]; intros r Hc; [inversion Hc |].
  simpl. apply elem_of_cons in Hc as [-> | Hc]; [| apply IH, Hc].
  eapply Qle_trans; [apply py_max_le_r | apply foldl_py_max_le_init].
Qed.

Lemma foldl_py_max_cases {num} {N : PyNum num} (r : num) cs :
  foldl py_max r cs = r \/ foldl py_max r cs ∈ cs.
Proof.
  revert r. induction cs as [| x cs IH]; intros r; simpl; [left; reflexivity |].
  destruct (IH (py_max r x)) as [E | Hin]; [| right; right; exact Hin].
  rewrite E. destruct (py_max_cases r x) as [-> | ->]; [left | right; left]; reflexivity.
Qed.

Lemma positive_or_none_Some (risk m : Q) :
  positive_or_none risk = Some m <-> m = risk /\ (0 < risk)%Q.
Proof.
  rewrite positive_or_none_Q. destruct (Qle_bool risk 0) eqn:E.
  - apply Qle_bool_iff in E. split; [discriminate |].
    intros [_ Hpos]. destruct (Qlt_not_le _ _ Hpos E).
  - split.
    + intros [= <-]. split; [reflexivity |].
      apply Qnot_le_lt. intros Hle. apply Qle_bool_iff in Hle. congruence.
    + intros [-> _]. reflexivity.
Qed.

Lemma positive_or_none_None (risk : Q) :
  positive_or_none risk = None <-> (risk <= 0)%Q.
Proof.
  rewrite positive_or_none_Q. destruct (Qle_bool risk 0) eqn:E.
  - apply Qle_bool_iff in E. tauto.
  - split; [discriminate |]. intros Hle. apply Qle_bool_iff in Hle. congruence.
Qed.

Lemma max_risk_cases (cs : list Q) : max_risk cs = 0%Q \/ max_risk cs ∈ cs.
Proof. apply (foldl_py_max_cases 0%Q cs). Qed.

Lemma max_risk_upper (cs : list Q) c : c ∈ cs -> (c <= max_risk cs)%Q.
Proof. apply (foldl_py_max_upper 0%Q cs). Qed.

Lemma max_risk_positive (cs : list Q) c :
  c ∈ cs -> (0 < c)%Q ->
  (0 < max_risk cs)%Q /\ max_risk cs ∈ cs.
Proof.
  intros Hin Hpos.
  assert (Hm : (0 < max_risk cs)%Q)
    by (eapply Qlt_le_trans; [exact Hpos | apply max_risk_upper, Hin]).
  split; [exact Hm |].
  destruct (max_risk_cases cs) as [E | H]; [| exact H].
  rewrite E in Hm. destruct (Qlt_irrefl _ Hm).
Qed.

(** C3: the value returned by [calculate_risk] is the largest of the
    candidate risks of the applicable steps (one first-degree, one
    second-degree, mother and maternal aunt, mother and paternal aunt, two
    first-degree, two second-degree on either side, two second-degree on
    opposite sides); when no candidate is positive the result is [None]; an
    exception raised by a step is raised by [calculate_risk]. *)
Theorem calculate_risk_max_candidate tie (T : claus_tables Q) patient_age h :
  (forall e, candidates tie T patient_age h = Raise e ->
     calculate_risk tie T patient_age h = Raise e) /\
  (forall cs, candidates tie T patient_age h = Ok cs ->
     (exists c, c ∈ cs /\ (0 < c)%Q) ->
     exists m, calculate_risk tie T patient_age h = Ok (Some m) /\
               m ∈ cs /\ forall c, c ∈ cs -> (c <= m)%Q) /\
  (forall cs, candidates tie T patient_age h = Ok cs ->
     (forall c, c ∈ cs -> (c <= 0)%Q) ->
     calculate_risk tie T patient_age h = Ok None).
Proof.
  rewrite calculate_risk_candidates. repeat split.
  - intros e ->. reflexivity.
  - intros cs -> (c & Hin & Hpos). rewrite bind_Ok.
    destruct (max_risk_positive cs c Hin Hpos) as [Hm Hmin].
    exists (max_risk cs). repeat split.
    + f_equal. apply positive_or_none_Some. split; [reflexivity | exact Hm].
    + exact Hmin.
    + intros c' Hc'. apply max_risk_upper, Hc'.
  - intros cs -> Hall. rewrite bind_Ok. f_equal.
    apply positive_or_none_None.
    destruct (max_risk_cases cs) as [E | H].
    + rewrite E. apply Qle_refl.
    + apply Hall, H.
Qed.

Lemma calculate_risk_max_candidate_witness :
  exists m,
    calculate_risk HalfEven sample_tables 50
      (with_mother 40 (with_maternal_aunts [35] no_history)) = Ok (Some m) /\
    m ∈ [96 # 1000; 68 # 1000; 276 # 1000] /\
    forall c, c ∈ [96 # 1000; 68 # 1000; 276 # 1000] -> (c <= m)%Q.
Proof.
  apply (proj1 (proj2 (calculate_risk_max_candidate HalfEven sample_tables 50
           (with_mother 40 (with_maternal_aunts [35] no_history))))).
  - reflexivity.
  - exists (96 # 1000). split; [left | reflexivity].
Defined.

(** In any arithmetic the returned number is one of the candidates: the
    comparison of [max] selects, it does not compute. *)
Lemma calculate_risk_is_candidate {num} {N : PyNum num} tie (T : claus_tables num)
    patient_age h r :
  calculate_risk tie T patient_age h = Ok (Some r) ->
  exists cs, candidates tie T patient_age h = Ok cs /\
             (r = num_of_Z 0 \/ r ∈ cs).
Proof.
  rewrite calculate_risk_candidates.
  destruct (candidates tie T patient_age h) as [cs | e]; [| discriminate].
  rewrite bind_Ok. unfold positive_or_none.
  destruct (num_ltb _ _); [| discriminate]. intros [= <-].
  exists cs. split; [reflexivity | apply foldl_py_max_cases].
Qed.

(** Scenario C of the spec in binary64 arithmetic. *)
Lemma calculate_risk_scenario_C_binary64 :
  candidates HalfEven sample_tables_binary64 50
    (with_mother 40 (with_maternal_aunts [35] no_history))
    = Ok [Binary64.of_ratio 96 1000; Binary64.of_ratio 68 1000;
          Binary64.of_ratio 276 1000] /\
  calculate_risk HalfEven sample_tables_binary64 50
    (with_mother 40 (with_maternal_aunts [35] no_history))
    = Ok (Some (Binary64.of_ratio 276 1000)).
Proof. vm_compute. split; reflexivity. Qed.

(** ** Order of the ages inside a list *)

Lemma single_step_take {num} ages (table : pyval num) :
  single_step ages table = single_step (take 1 ages) table.
Proof. destruct ages; reflexivity. Qed.

Lemma pair_step_take {num} ages (table : pyval num) :
  pair_step ages table = pair_step (take 2 ages) table.
Proof. destruct ages as [| a0 [| a1 ages]]; reflexivity. Qed.

Lemma opposite_step_take {num} maternal paternal (table : pyval num) :
  opposite_step maternal paternal table =
  opposite_step (take 1 maternal) (take 1 paternal) table.
Proof. destruct maternal, paternal; reflexivity. Qed.

Lemma mother_aunt_step_take {num} mother aunts aunts' (table : pyval num) :
  (take 1 <$> sort_ages_entries aunts) = (take 1 <$> sort_ages_entries aunts') ->
  mother_aunt_step mother aunts table = mother_aunt_step mother aunts' table.
Proof.
  intros E. unfold mother_aunt_step.
  destruct mother as [m |]; [| reflexivity].
  destruct (m =? 0); [reflexivity |].
  destruct (sort_ages_entries aunts) as [[| a l] | e],
           (sort_ages_entries aunts') as [[| a' l'] | e'];
    cbv [fmap result_fmap] in E; cbn in E; rewrite ?bind_Ok, ?bind_Raise;
    congruence.
Qed.

Lemma take_1_of_2 (l l' : list Z) : take 2 l = take 2 l' -> take 1 l = take 1 l'.
Proof.
  intros E. change 1%nat with (1 `min` 2)%nat.
  rewrite <- !take_take, E. reflexivity.
Qed.

Lemma steps_same_youngest {num} (T : claus_tables num) h h' :
  same_youngest h h' -> steps T h = steps T h'.
Proof.
  intros (Hm & Hfd & Hsd & Hms & Hps & Hma & Hpa). unfold steps.
  rewrite (single_step_take (first_degree_ages h)),
    (single_step_take (second_degree_ages h)),
    (pair_step_take (first_degree_ages h)),
    (pair_step_take (maternal_second_degree_ages h)),
    (pair_step_take (paternal_second_degree_ages h)),
    (opposite_step_take (maternal_second_degree_ages h)),
    (mother_aunt_step_take _ _ _ _ Hma), (mother_aunt_step_take _ _ _ _ Hpa).
  rewrite (take_1_of_2 _ _ Hfd), (take_1_of_2 _ _ Hms), (take_1_of_2 _ _ Hps),
    Hsd, Hfd, Hms, Hps, Hm.
  rewrite <- !single_step_take, <- !pair_step_take, <- opposite_step_take.
  reflexivity.
Qed.

Lemma truthy_ages_proper l1 l2 : l1 ≡ₚ l2 -> truthy_ages l1 ≡ₚ truthy_ages l2.
Proof. intros Hp. unfold truthy_ages. rewrite Hp. reflexivity. Qed.

Lemma history_permuted_same_youngest h h' :
  history_permuted h h' -> same_youngest h h'.
Proof.
  intros (Hm & Hd & Hs & Hma & Hpa & Hmg & Hpg & Hmh & Hph).
  unfold same_youngest, first_degree_ages, second_degree_ages,
    maternal_second_degree_ages, paternal_second_degree_ages.
  rewrite Hm.
  repeat split; f_equal;
    try (apply sort_ages_entries_proper; assumption);
    apply sort_ages_proper, truthy_ages_proper;
    rewrite ?Hd, ?Hs, ?Hma, ?Hpa, ?Hmg, ?Hpg, ?Hmh, ?Hph; reflexivity.
Qed.

(** C6: permuting the ages inside any list of the history leaves the result
    of [calculate_risk] unchanged, and the result depends on the lists only
    through the youngest age of each category (the two youngest where a
    two-relative table is used). *)
Theorem calculate_risk_order_irrelevant {num} {N : PyNum num} tie
    (T : claus_tables num) patient_age h h' :
  (history_permuted h h' ->
   calculate_risk tie T patient_age h = calculate_risk tie T patient_age h') /\
  (same_youngest h h' ->
   calculate_risk tie T patient_age h = calculate_risk tie T patient_age h').
Proof.
  assert (Hy : same_youngest h h' ->
    calculate_risk tie T patient_age h = calculate_risk tie T patient_age h').
  { intros H. rewrite !calculate_risk_steps, (steps_same_youngest T h h' H).
    reflexivity. }
  split; [| exact Hy].
  intros H. apply Hy, history_permuted_same_youngest, H.
Qed.

Lemma calculate_risk_order_irrelevant_witness :
  calculate_risk HalfEven sample_tables_binary64 60
    (with_maternal_aunts [50; 30] (with_paternal_aunts [55] no_history)) =
  calculate_risk HalfEven sample_tables_binary64 60
    (with_maternal_aunts [30; 50] (with_paternal_aunts [55] no_history)).
Proof.
  apply (proj1 (calculate_risk_order_irrelevant HalfEven sample_tables_binary64 60
    (with_maternal_aunts [50; 30] (with_paternal_aunts [55] no_history))
    (with_maternal_aunts [30; 50] (with_paternal_aunts [55] no_history)))).
  unfold history_permuted. simpl.
  repeat split; try reflexivity. apply perm_swap.
Defined.

(** ** Rounding *)






(** ** Range of the result *)











Lemma elem_of_planned {num} (l : list (result (option (lookup_req num)))) s :
  s ∈ (planned l).1 -> Ok (Some s) ∈ l.
Proof.
  induction l as [| [[q |] | e] l IH]; simpl.
  - intros H. inversion H.
  - destruct (planned l) as [qs oe]. simpl in IH |- *.
    intros H. apply elem_of_cons in H as [-> | H]; [left | right; apply IH, H].
  - intros H. right. apply IH, H.
  - intros H. inversion H.
Qed.







Lemma candidates_Ok {num} {N : PyNum num} tie (T : claus_tables num)
    patient_age h cs :
  candidates tie T patient_age h = Ok cs ->
  mapM (candidate tie patient_age) (applicable_steps T h) = Ok cs.
Proof.
  unfold candidates.
  destruct (mapM _ _) as [cs' | e]; [| discriminate]. rewrite bind_Ok.
  destruct (planned (steps T h)).2; [discriminate |]. intros [= <-]. reflexivity.
Qed.



(** ** Adding a relative *)

(** C5: the spec asks that adding a qualifying relative never decreases the
    risk.  Next to a mother's onset age above 79, the addition of a maternal
    aunt of valid age turns a risk into an exception: with the sample tables
    a patient of 40 with a mother's onset at 85 and a sister's onset at 45
    gets 0.125, and [IndexError] once a maternal aunt with onset at 45 is
    added.  The exception does not depend on the values in the tables: it
    is raised for any tables whose mother-and-maternal-aunt table has six
    relative bins. *)
Theorem adding_aunt_next_to_invalid_mother_raises tie :
  calculate_risk tie sample_tables 40
    (add_relative FullSister 45 (with_mother 85 no_history))
    = Ok (Some (125 # 1000)) /\
  calculate_risk tie sample_tables 40
    (add_relative MaternalAunt 45
       (add_relative FullSister 45 (with_mother 85 no_history)))
    = Raise IndexError /\
  (forall num (N : PyNum num) (T : claus_tables num) patient_age m a h,
     80 <= m -> in_valid_range a ->
     has_relative_bins 6 (MOTHER_MATERNAL_AUNT T) = true ->
     mother_onset_age h = Some m ->
     exists e,
       calculate_risk tie T patient_age (add_relative MaternalAunt a h)
         = Raise e).
Proof.
  split; [destruct tie; vm_compute; reflexivity |].
  split; [destruct tie; vm_compute; reflexivity |].
  intros num N T patient_age m a h Hm Ha Hshape Hmother.
  assert (Hm0 : m <> 0) by lia.
  assert (Hbin : 6 <= (m - 20) / 10) by (apply Z.div_le_lower_bound; lia).
  rewrite calculate_risk_steps. unfold steps.
  change (mother_onset_age (add_relative MaternalAunt a h))
    with (mother_onset_age h).
  change (maternal_aunt_onset_ages (add_relative MaternalAunt a h))
    with (Some a :: maternal_aunt_onset_ages h).
  rewrite Hmother. cbn [foldM].
  destruct (apply_step tie patient_age (num_of_Z 0) _) as [risk1 | e];
    [rewrite bind_Ok | exists e; reflexivity].
  destruct (apply_step tie patient_age risk1 _) as [risk2 | e];
    [rewrite bind_Ok | exists e; reflexivity].
  rewrite (mother_aunt_step_truthy m (Some a :: maternal_aunt_onset_ages h))
    by exact Hm0.
  destruct (decide (None ∈ Some a :: maternal_aunt_onset_ages h)) as [Hn | Hn].
  - rewrite (sort_ages_entries_None _ Hn). exists TypeError. reflexivity.
  - rewrite (sort_ages_entries_integers _ Hn), bind_Ok.
    destruct (sort_ages (integers (Some a :: maternal_aunt_onset_ages h)))
      as [| a0 rest] eqn:E.
    + assert (Hin : a ∈ sort_ages (integers (Some a :: maternal_aunt_onset_ages h)))
        by (apply elem_of_sort_ages; split; [exact Ha | left]).
      rewrite E in Hin. inversion Hin.
    + assert (Ha0 : in_valid_range a0).
      { assert (Hin : a0 ∈ sort_ages (integers (Some a :: maternal_aunt_onset_ages h)))
          by (rewrite E; left).
        apply elem_of_sort_ages in Hin. tauto. }
      assert (Hnz : a0 <> 0) by (unfold in_valid_range, VALID_MIN_AGE in Ha0; lia).
      rewrite apply_step_Some.
      unfold candidate at 1, get_lifetime_risk at 1.
      rewrite (bin_age_nonzero m Hm0), (bin_age_nonzero a0 Hnz).
      rewrite (lookup_beyond_relative_bins 6) by (assumption || exact Hbin).
      exists IndexError. reflexivity.
Qed.

(** The same two calls in binary64 arithmetic. *)
Lemma adding_aunt_next_to_invalid_mother_raises_binary64 :
  calculate_risk HalfEven sample_tables_binary64 40
    (add_relative FullSister 45 (with_mother 85 no_history))
    = Ok (Some (Binary64.of_ratio 125 1000)) /\
  calculate_risk HalfEven sample_tables_binary64 40
    (add_relative MaternalAunt 45
       (add_relative FullSister 45 (with_mother 85 no_history)))
    = Raise IndexError.
Proof. vm_compute. split; reflexivity. Qed.

(** With the sample tables the addition of a relative to a history whose
    ages are all valid raises the risk: 0.125 becomes 0.421. *)
Lemma adding_sister_sample_tables :
  calculate_risk HalfEven sample_tables 40
    (add_relative FullSister 45 no_history) = Ok (Some (125 # 1000)) /\
  calculate_risk HalfEven sample_tables 40
    (add_relative FullSister 25 (add_relative FullSister 45 no_history))
    = Ok (Some (421 # 1000)).
Proof. vm_compute. split; reflexivity. Qed.

(** *** Monotonicity under tables whose risk falls with the relative's age *)

Lemma insert_age_Permutation a l : insert_age a l ≡ₚ a :: l.
Proof.
  induction l as [| x l IH]; simpl; [reflexivity |].
  case_decide; [reflexivity |]. rewrite IH. apply perm_swap.
Qed.

Lemma insert_age_StronglySorted a l :
  StronglySorted Z.le l -> StronglySorted Z.le (insert_age a l).
Proof.
  induction 1 as [| x l Hs IH Hall]; simpl.
  - repeat constructor.
  - case_decide.
    + constructor; [constructor; assumption |].
      constructor; [assumption |].
      eapply list.Forall_impl; [exact Hall |]. intros y Hy. simpl in Hy. lia.
    + constructor; [exact IH |].
      rewrite insert_age_Permutation. constructor; [lia | exact Hall].
Qed.

Lemma sort_ages_add a l l' :
  in_valid_range a -> l' ≡ₚ a :: l ->
  sort_ages l' = insert_age a (sort_ages l).
Proof.
  intros Ha Hp. apply (StronglySorted_unique Z.le).
  - apply sort_ages_StronglySorted.
  - apply insert_age_StronglySorted, sort_ages_StronglySorted.
  - rewrite insert_age_Permutation. unfold sort_ages.
    rewrite !sorted_Permutation, Hp, filter_cons, decide_True by exact Ha.
    reflexivity.
Qed.

Lemma not_older_refl l : not_older l l.
Proof.
  split.
  - intros x rest ->. exists x, rest. split; [reflexivity | lia].
  - intros x0 x1 rest ->. exists x0, x1, rest. repeat split; lia.
Qed.

Lemma not_older_insert a l :
  StronglySorted Z.le l -> not_older l (insert_age a l).
Proof.
  intros Hs. split.
  - intros x rest ->. simpl. case_decide.
    + exists a, (x :: rest). split; [reflexivity | assumption].
    + exists x, (insert_age a rest). split; [reflexivity | lia].
  - intros x0 x1 rest ->.
    apply StronglySorted_inv in Hs as [_ Hall].
    apply list.Forall_cons in Hall as [H01 _].
    simpl. case_decide.
    + exists a, x0, (x1 :: rest). repeat split; assumption.
    + case_decide.
      * exists x0, a, (x1 :: rest). repeat split; [lia | assumption].
      * exists x0, x1, (insert_age a rest). repeat split; lia.
Qed.

Lemma grows_not_older a l l' :
  StronglySorted Z.le l -> grows a l l' -> not_older l l'.
Proof.
  intros Hs [-> | ->]; [apply not_older_refl | apply not_older_insert, Hs].
Qed.

Ltac history_fields :=
  cbn [add_relative with_mother without_mother
       mother_onset_age daughter_onset_ages full_sister_onset_ages
       maternal_aunt_onset_ages paternal_aunt_onset_ages
       maternal_grandmother_onset_ages paternal_grandmother_onset_ages
       maternal_half_sister_onset_ages paternal_half_sister_onset_ages].

Ltac integers_perm :=
  rewrite ?integers_app, ?integers_cons_Some, <- ?app_comm_cons,
    <- ?Permutation_middle; reflexivity.

Ltac solve_grows Ha :=
  first
    [ left; reflexivity
    | right; rewrite !sort_ages_truthy; apply sort_ages_add;
      [ exact Ha | integers_perm ] ].

Lemma first_degree_ages_add c a h :
  in_valid_range a -> (c = Mother -> mother_absent h) ->
  grows a (first_degree_ages h) (first_degree_ages (add_relative c a h)).
Proof.
  intros Ha Hc. unfold first_degree_ages.
  destruct c; history_fields; try solve_grows Ha.
  specialize (Hc eq_refl). unfold mother_absent in Hc.
  assert (Ha0 : a <> 0) by (unfold in_valid_range, VALID_MIN_AGE in Ha; lia).
  destruct (Z.eqb_spec a 0); [contradiction |].
  destruct (mother_onset_age h) as [m |]; [subst m |]; cbn [Z.eqb];
    right; rewrite !sort_ages_truthy; apply sort_ages_add;
    (assumption || reflexivity).
Qed.

Lemma second_degree_ages_add c a h :
  in_valid_range a ->
  grows a (second_degree_ages h) (second_degree_ages (add_relative c a h)).
Proof.
  intros Ha. unfold second_degree_ages.
  destruct c; history_fields; solve_grows Ha.
Qed.

Lemma maternal_second_degree_ages_add c a h :
  in_valid_range a ->
  grows a (maternal_second_degree_ages h)
    (maternal_second_degree_ages (add_relative c a h)).
Proof.
  intros Ha. unfold maternal_second_degree_ages.
  destruct c; history_fields; solve_grows Ha.
Qed.

Lemma paternal_second_degree_ages_add c a h :
  in_valid_range a ->
  grows a (paternal_second_degree_ages h)
    (paternal_second_degree_ages (add_relative c a h)).
Proof.
  intros Ha. unfold paternal_second_degree_ages.
  destruct c; history_fields; solve_grows Ha.
Qed.

Lemma maternal_aunts_add c a h :
  in_valid_range a ->
  grows a (sort_ages (integers (maternal_aunt_onset_ages h)))
    (sort_ages (integers (maternal_aunt_onset_ages (add_relative c a h)))).
Proof.
  intros Ha. destruct c; history_fields;
    first [ left; reflexivity
          | right; apply sort_ages_add; [exact Ha | reflexivity] ].
Qed.

Lemma paternal_aunts_add c a h :
  in_valid_range a ->
  grows a (sort_ages (integers (paternal_aunt_onset_ages h)))
    (sort_ages (integers (paternal_aunt_onset_ages (add_relative c a h)))).
Proof.
  intros Ha. destruct c; history_fields;
    first [ left; reflexivity
          | right; apply sort_ages_add; [exact Ha | reflexivity] ].
Qed.

Lemma aunts_add_integers c a h :
  (None ∉ maternal_aunt_onset_ages h ->
   None ∉ maternal_aunt_onset_ages (add_relative c a h)) /\
  (None ∉ paternal_aunt_onset_ages h ->
   None ∉ paternal_aunt_onset_ages (add_relative c a h)).
Proof.
  split; intros H; destruct c; history_fields; try exact H;
    rewrite elem_of_cons; intros [E | E]; (discriminate || contradiction).
Qed.

Lemma bin_age_valid a :
  in_valid_range a ->
  _bin_age_to_index a = Some ((a - 20) / 10) /\ 0 <= (a - 20) / 10 <= 5.
Proof.
  unfold in_valid_range, VALID_MAX_AGE, VALID_MIN_AGE. intros Ha.
  split; [apply bin_age_nonzero; lia |].
  split; [apply Z.div_pos; lia |].
  assert ((a - 20) / 10 < 6) by (apply Z.div_lt_upper_bound; lia). lia.
Qed.

Lemma bin_age_mono a b : a <= b -> (a - 20) / 10 <= (b - 20) / 10.
Proof. intros Hab. apply Z.div_le_mono; lia. Qed.

Lemma candidate_defined2 tie age table x :
  risk_antitone2 tie age table -> in_valid_range x ->
  exists r, candidate tie age (table, _bin_age_to_index x, None) = Ok r.
Proof.
  intros Hanti Hx. destruct (bin_age_valid x Hx) as [-> Hb].
  destruct (Hanti ((x - 20) / 10) ((x - 20) / 10)) as (r & _ & Hr & _); try lia.
  exists r. exact Hr.
Qed.

Lemma candidate_defined3 tie age table x y :
  risk_antitone3 tie age table -> in_valid_range x -> in_valid_range y ->
  exists r, candidate tie age
              (table, _bin_age_to_index x, _bin_age_to_index y) = Ok r.
Proof.
  intros Hanti Hx Hy.
  destruct (bin_age_valid x Hx) as [-> Hbx], (bin_age_valid y Hy) as [-> Hby].
  destruct (Hanti ((x - 20) / 10) ((x - 20) / 10) ((y - 20) / 10) ((y - 20) / 10))
    as (r & _ & Hr & _); try lia.
  exists r. exact Hr.
Qed.

Lemma step_le2 tie age table x x' :
  risk_antitone2 tie age table ->
  in_valid_range x -> in_valid_range x' -> x' <= x ->
  step_le tie age (Ok (Some (table, _bin_age_to_index x, None)))
                  (Ok (Some (table, _bin_age_to_index x', None))).
Proof.
  intros Hanti Hx Hx' Hle.
  destruct (bin_age_valid x Hx) as [-> Hb], (bin_age_valid x' Hx') as [-> Hb'].
  pose proof (bin_age_mono x' x Hle).
  destruct (Hanti ((x' - 20) / 10) ((x - 20) / 10)) as (r' & r & Hr' & Hr & Hrr);
    try lia.
  exists r, r'. repeat split; assumption.
Qed.

Lemma step_le3 tie age table x x' y y' :
  risk_antitone3 tie age table ->
  in_valid_range x -> in_valid_range x' -> x' <= x ->
  in_valid_range y -> in_valid_range y' -> y' <= y ->
  step_le tie age (Ok (Some (table, _bin_age_to_index x, _bin_age_to_index y)))
                  (Ok (Some (table, _bin_age_to_index x', _bin_age_to_index y'))).
Proof.
  intros Hanti Hx Hx' Hle Hy Hy' Hle'.
  destruct (bin_age_valid x Hx) as [-> Hb], (bin_age_valid x' Hx') as [-> Hb'].
  destruct (bin_age_valid y Hy) as [-> Hc], (bin_age_valid y' Hy') as [-> Hc'].
  pose proof (bin_age_mono x' x Hle). pose proof (bin_age_mono y' y Hle').
  destruct (Hanti ((x' - 20) / 10) ((x - 20) / 10) ((y' - 20) / 10) ((y - 20) / 10))
    as (r' & r & Hr' & Hr & Hrr); try lia.
  exists r, r'. repeat split; assumption.
Qed.

Lemma single_step_le tie age table l l' :
  risk_antitone2 tie age table ->
  Forall in_valid_range l -> Forall in_valid_range l' -> not_older l l' ->
  step_le tie age (Ok (single_step l table)) (Ok (single_step l' table)).
Proof.
  intros Hanti Hl Hl' [Hhead _].
  destruct l as [| x rest].
  - destruct l' as [| y rest']; simpl; [exact I |].
    apply list.Forall_cons in Hl' as [Hy _].
    apply candidate_defined2; assumption.
  - destruct (Hhead x rest eq_refl) as (y & rest' & -> & Hle).
    apply list.Forall_cons in Hl as [Hx _].
    apply list.Forall_cons in Hl' as [Hy _].
    apply step_le2; assumption.
Qed.

Lemma pair_step_le tie age table l l' :
  risk_antitone3 tie age table ->
  Forall in_valid_range l -> Forall in_valid_range l' -> not_older l l' ->
  step_le tie age (Ok (pair_step l table)) (Ok (pair_step l' table)).
Proof.
  intros Hanti Hl Hl' [_ Hpair].
  destruct l as [| x0 [| x1 rest]].
  - destruct l' as [| y0 [| y1 rest']]; simpl; try exact I.
    apply list.Forall_cons in Hl' as [Hy0 Hl'].
    apply list.Forall_cons in Hl' as [Hy1 _].
    apply candidate_defined3; assumption.
  - destruct l' as [| y0 [| y1 rest']]; simpl; try exact I.
    apply list.Forall_cons in Hl' as [Hy0 Hl'].
    apply list.Forall_cons in Hl' as [Hy1 _].
    apply candidate_defined3; assumption.
  - destruct (Hpair x0 x1 rest eq_refl) as (y0 & y1 & rest' & -> & Hle0 & Hle1).
    apply list.Forall_cons in Hl as [Hx0 Hl].
    apply list.Forall_cons in Hl as [Hx1 _].
    apply list.Forall_cons in Hl' as [Hy0 Hl'].
    apply list.Forall_cons in Hl' as [Hy1 _].
    apply step_le3; assumption.
Qed.

Lemma opposite_step_le tie age table m m' p p' :
  risk_antitone3 tie age table ->
  Forall in_valid_range m -> Forall in_valid_range m' -> not_older m m' ->
  Forall in_valid_range p -> Forall in_valid_range p' -> not_older p p' ->
  step_le tie age (Ok (opposite_step m p table)) (Ok (opposite_step m' p' table)).
Proof.
  intros Hanti Hm Hm' [Hmh _] Hp Hp' [Hph _].
  assert (Hnew : step_le tie age (Ok None) (Ok (opposite_step m' p' table))).
  { destruct m' as [| y rest]; [exact I |].
    destruct p' as [| z rest']; [exact I |]. simpl.
    apply list.Forall_cons in Hm' as [Hy _].
    apply list.Forall_cons in Hp' as [Hz _].
    apply candidate_defined3; assumption. }
  destruct m as [| x rest]; [exact Hnew |].
  destruct p as [| w rest0]; [exact Hnew |].
  destruct (Hmh x rest eq_refl) as (y & rest' & -> & Hle).
  destruct (Hph w rest0 eq_refl) as (z & rest0' & -> & Hle').
  apply list.Forall_cons in Hm as [Hx _].
  apply list.Forall_cons in Hm' as [Hy _].
  apply list.Forall_cons in Hp as [Hw _].
  apply list.Forall_cons in Hp' as [Hz _].
  apply step_le3; assumption.
Qed.

Lemma mother_aunt_step_le tie age table mother aunts aunts' :
  risk_antitone3 tie age table ->
  match mother with Some m => m = 0 \/ in_valid_range m | None => True end ->
  (None ∉ aunts -> None ∉ aunts') ->
  not_older (sort_ages (integers aunts)) (sort_ages (integers aunts')) ->
  step_le tie age (mother_aunt_step mother aunts table)
                  (mother_aunt_step mother aunts' table).
Proof.
  intros Hanti Hmother Hint [Hhead _].
  destruct mother as [m |]; [| exact I].
  destruct (Z.eq_dec m 0) as [-> | E]; [exact I |].
  destruct Hmother as [Hm | Hm]; [contradiction |].
  rewrite !mother_aunt_step_truthy by exact E.
  destruct (decide (None ∈ aunts)) as [Hn | Hn].
  { rewrite (sort_ages_entries_None _ Hn). exact I. }
  rewrite (sort_ages_entries_integers _ Hn),
    (sort_ages_entries_integers _ (Hint Hn)), !bind_Ok.
  pose proof (sort_ages_valid (integers aunts)) as Hv.
  pose proof (sort_ages_valid (integers aunts')) as Hv'.
  destruct (sort_ages (integers aunts)) as [| x rest].
  - destruct (sort_ages (integers aunts')) as [| y rest']; [exact I |].
    apply list.Forall_cons in Hv' as [Hy _].
    apply candidate_defined3; assumption.
  - destruct (Hhead x rest eq_refl) as (y & rest' & E' & Hle).
    rewrite E' in Hv' |- *.
    apply list.Forall_cons in Hv as [Hx _].
    apply list.Forall_cons in Hv' as [Hy _].
    apply step_le3; (assumption || lia).
Qed.

Lemma mother_aunt_step_new tie age table mother a aunts aunts' :
  risk_antitone3 tie age table ->
  match mother with Some m => m = 0 | None => True end ->
  in_valid_range a -> None ∉ aunts' ->
  step_le tie age (mother_aunt_step mother aunts table)
                  (mother_aunt_step (Some a) aunts' table).
Proof.
  intros Hanti Hmother Ha Hint.
  assert (Hold : mother_aunt_step mother aunts table = Ok None).
  { unfold mother_aunt_step. destruct mother as [m |]; [| reflexivity].
    subst m. reflexivity. }
  rewrite Hold.
  assert (Ha0 : a <> 0) by (unfold in_valid_range, VALID_MIN_AGE in Ha; lia).
  rewrite (mother_aunt_step_truthy a) by exact Ha0.
  rewrite (sort_ages_entries_integers _ Hint), bind_Ok.
  pose proof (sort_ages_valid (integers aunts')) as Hv'.
  destruct (sort_ages (integers aunts')) as [| y rest']; [exact I |].
  apply list.Forall_cons in Hv' as [Hy _].
  apply candidate_defined3; assumption.
Qed.

Lemma py_max_mono (a a' b b' : Q) :
  (a <= a')%Q -> (b <= b')%Q -> (py_max a b <= py_max a' b')%Q.
Proof.
  intros Ha Hb.
  destruct (py_max_cases a b) as [-> | ->].
  - eapply Qle_trans; [exact Ha | apply py_max_le_l].
  - eapply Qle_trans; [exact Hb | apply py_max_le_r].
Qed.

Lemma foldM_step_le tie age l l' :
  Forall2 (step_le tie age) l l' ->
  forall risk risk' m,
    (risk <= risk')%Q ->
    foldM (apply_step tie age) risk l = Ok m ->
    exists m', foldM (apply_step tie age) risk' l' = Ok m' /\ (m <= m')%Q.
Proof.
  induction 1 as [| s s' l l' Hs _ IH]; intros risk risk' m Hle;
    cbn [foldM].
  - intros [= <-]. exists risk'. split; [reflexivity | exact Hle].
  - destruct s as [[q |] | e].
    + destruct s' as [[q' |] | e']; cbn [step_le] in Hs; try contradiction.
      rewrite !apply_step_Some.
      destruct Hs as (r & r' & -> & -> & Hrr). rewrite !bind_Ok.
      apply IH, py_max_mono; assumption.
    + destruct s' as [[q' |] | e']; cbn [step_le] in Hs; try contradiction.
      * rewrite apply_step_Some, apply_step_None.
        destruct Hs as (r' & ->). rewrite !bind_Ok.
        apply IH. eapply Qle_trans; [exact Hle | apply py_max_le_l].
      * rewrite !apply_step_None, !bind_Ok. apply IH, Hle.
    + rewrite apply_step_Raise, bind_Raise. discriminate.
Qed.

Lemma steps_add_relative tie T age h c a :
  risk_antitone tie age T -> mother_valid h -> in_valid_range a ->
  (c = Mother -> mother_absent h /\ aunts_are_integers h) ->
  Forall2 (step_le tie age) (steps T h) (steps T (add_relative c a h)).
Proof.
  intros (H1 & H2 & H3 & H4 & H5 & H6 & H7) Hmv Ha Hc.
  assert (Hc' : c = Mother -> mother_absent h) by (intros E; apply Hc, E).
  assert (Gfd : not_older (first_degree_ages h)
                  (first_degree_ages (add_relative c a h)))
    by (eapply grows_not_older;
        [apply sort_ages_StronglySorted | apply first_degree_ages_add; assumption]).
  assert (Gsd : not_older (second_degree_ages h)
                  (second_degree_ages (add_relative c a h)))
    by (eapply grows_not_older;
        [apply sort_ages_StronglySorted | apply second_degree_ages_add; assumption]).
  assert (Gms : not_older (maternal_second_degree_ages h)
                  (maternal_second_degree_ages (add_relative c a h)))
    by (eapply grows_not_older;
        [apply sort_ages_StronglySorted
        | apply maternal_second_degree_ages_add; assumption]).
  assert (Gps : not_older (paternal_second_degree_ages h)
                  (paternal_second_degree_ages (add_relative c a h)))
    by (eapply grows_not_older;
        [apply sort_ages_StronglySorted
        | apply paternal_second_degree_ages_add; assumption]).
  assert (Gma : not_older (sort_ages (integers (maternal_aunt_onset_ages h)))
                  (sort_ages (integers (maternal_aunt_onset_ages (add_relative c a h)))))
    by (eapply grows_not_older;
        [apply sort_ages_StronglySorted | apply maternal_aunts_add; assumption]).
  assert (Gpa : not_older (sort_ages (integers (paternal_aunt_onset_ages h)))
                  (sort_ages (integers (paternal_aunt_onset_ages (add_relative c a h)))))
    by (eapply grows_not_older;
        [apply sort_ages_StronglySorted | apply paternal_aunts_add; assumption]).
  destruct (aunts_add_integers c a h) as [Ima Ipa].
  assert (Hmother : forall table aunts aunts',
    risk_antitone3 tie age table ->
    (None ∉ aunts -> None ∉ aunts') ->
    (c = Mother -> None ∉ aunts') ->
    not_older (sort_ages (integers aunts)) (sort_ages (integers aunts')) ->
    step_le tie age (mother_aunt_step (mother_onset_age h) aunts table)
      (mother_aunt_step (mother_onset_age (add_relative c a h)) aunts' table)).
  { intros table aunts aunts' Hanti Hint Hnew Hno.
    destruct (decide (c = Mother)) as [-> | Hne].
    - apply mother_aunt_step_new;
        [exact Hanti | apply Hc'; reflexivity | exact Ha | apply Hnew; reflexivity].
    - replace (mother_onset_age (add_relative c a h)) with (mother_onset_age h)
        by (destruct c; try reflexivity; contradiction).
      apply mother_aunt_step_le; assumption. }
  unfold steps.
  repeat apply Forall2_cons; try apply Forall2_nil;
    first [ apply single_step_le | apply pair_step_le
          | apply opposite_step_le | apply Hmother ];
    first [ assumption | apply sort_ages_valid
          | intros E; subst c; destruct (Hc eq_refl) as [_ [Hi1 Hi2]];
            assumption ].
Qed.

Lemma forallb_seqZ (f : Z -> bool) m n k :
  forallb f (seqZ m n) = true -> m <= k < m + n -> f k = true.
Proof.
  intros H Hk. rewrite forallb_forall in H.
  apply H, list_elem_of_In, elem_of_seqZ, Hk.
Qed.

Lemma risk_le_b_spec a b :
  risk_le_b a b = true -> exists r' r, a = Ok r' /\ b = Ok r /\ (r' <= r)%Q.
Proof.
  destruct a as [r' |], b as [r |]; try discriminate. simpl.
  intros H. apply Qle_bool_iff in H. eauto.
Qed.

Lemma risk_antitone2_b_correct tie age table :
  risk_antitone2_b tie age table = true -> risk_antitone2 tie age table.
Proof.
  intros H i i' H0 Hle H5. unfold risk_antitone2_b in H.
  apply (forallb_seqZ _ _ _ i) in H; [| lia].
  apply (forallb_seqZ _ _ _ i') in H; [| lia].
  apply risk_le_b_spec in H as (r' & r & Hr' & Hr & Hrr). eauto.
Qed.

Lemma risk_antitone3_b_correct tie age table :
  risk_antitone3_b tie age table = true -> risk_antitone3 tie age table.
Proof.
  intros H i i' j j' Hi0 Hi Hi5 Hj0 Hj Hj5. unfold risk_antitone3_b in H.
  apply (forallb_seqZ _ _ _ i) in H; [| lia].
  apply (forallb_seqZ _ _ _ i') in H; [| lia].
  apply (forallb_seqZ _ _ _ j) in H; [| lia].
  apply (forallb_seqZ _ _ _ j') in H; [| lia].
  apply risk_le_b_spec in H as (r' & r & Hr' & Hr & Hrr). eauto.
Qed.

Lemma risk_antitone_b_correct tie age T :
  risk_antitone_b tie age T = true -> risk_antitone tie age T.
Proof.
  unfold risk_antitone_b, risk_antitone. rewrite !andb_true_iff.
  intros [[[[[[H1 H2] H3] H4] H5] H6] H7].
  repeat split;
    (apply risk_antitone2_b_correct || apply risk_antitone3_b_correct);
    assumption.
Qed.

(** X17: when, at the patient's age, the conditional risk read from each
    table exists for the relative bins 0..5 and does not grow with a
    relative bin index, and the mother's onset age, if supplied, is in
    [20,79], then adding one onset age in [20,79] to a history on which
    [calculate_risk] returns a risk yields a risk that is not smaller.  The
    mother's age is added only where none was given and the aunt lists hold
    no [None]. *)
Theorem calculate_risk_monotone tie (T : claus_tables Q) patient_age h c a r :
  risk_antitone tie patient_age T ->
  mother_valid h ->
  in_valid_range a ->
  (c = Mother -> mother_absent h /\ aunts_are_integers h) ->
  calculate_risk tie T patient_age h = Ok (Some r) ->
  exists r',
    calculate_risk tie T patient_age (add_relative c a h) = Ok (Some r') /\
    (r <= r')%Q.
Proof.
  intros Hanti Hmv Ha Hc. rewrite !calculate_risk_steps.
  destruct (foldM (apply_step tie patient_age) (num_of_Z 0) (steps T h))
    as [m | e] eqn:Em; [| discriminate].
  rewrite bind_Ok. intros [= Hr].
  apply positive_or_none_Some in Hr as [-> Hpos].
  destruct (foldM_step_le tie patient_age _ _
              (steps_add_relative tie T patient_age h c a Hanti Hmv Ha Hc)
              (num_of_Z 0) (num_of_Z 0) m (Qle_refl _) Em) as (m' & -> & Hle).
  rewrite bind_Ok. exists m'. split; [| exact Hle].
  f_equal. apply positive_or_none_Some. split; [reflexivity |].
  eapply Qlt_le_trans; [exact Hpos | exact Hle].
Qed.

Lemma calculate_risk_monotone_witness :
  exists r',
    calculate_risk HalfEven sample_tables 40
      (add_relative FullSister 25 (add_relative FullSister 45 no_history))
      = Ok (Some r') /\
    (125 # 1000 <= r')%Q.
Proof.
  apply (calculate_risk_monotone HalfEven sample_tables 40
           (add_relative FullSister 45 no_history) FullSister 25 (125 # 1000)).
  - apply risk_antitone_b_correct. vm_compute. reflexivity.
  - exact I.
  - unfold in_valid_range, VALID_MAX_AGE, VALID_MIN_AGE. lia.
  - discriminate.
  - reflexivity.
Defined.

(** Without the condition on the aunt lists: a mother's age added next to
    an aunt list that holds [None] turns a risk into [TypeError]. *)
Lemma adding_mother_next_to_None_aunt_raises :
  calculate_risk HalfEven sample_tables 40
    (with_maternal_aunt_entries [None; Some 45] no_history)
    = Ok (Some (81 # 1000)) /\
  calculate_risk HalfEven sample_tables 40
    (add_relative Mother 45
       (with_maternal_aunt_entries [None; Some 45] no_history))
    = Raise TypeError.
Proof. vm_compute. split; reflexivity. Qed.

(** ** Ages outside the valid range in the lists *)

Lemma sort_ages_drop a l l' :
  ~ in_valid_range a -> l' ≡ₚ a :: l -> sort_ages l' = sort_ages l.
Proof.
  intros Ha Hp. rewrite (sort_ages_proper _ _ Hp).
  apply sort_ages_out_of_range, Ha.
Qed.

Lemma sort_ages_entries_out_of_range a l :
  ~ in_valid_range a -> sort_ages_entries (Some a :: l) = sort_ages_entries l.
Proof.
  intros Ha. unfold sort_ages_entries.
  destruct (decide (None ∈ l)) as [H | H].
  - rewrite decide_True by (right; exact H). reflexivity.
  - rewrite decide_False
      by (rewrite elem_of_cons; intros [E | E]; [discriminate | contradiction]).
    rewrite integers_cons_Some, sort_ages_out_of_range by exact Ha.
    reflexivity.
Qed.

Ltac solve_dropped Ha :=
  first
    [ reflexivity
    | rewrite (sort_ages_entries_out_of_range _ _ Ha); reflexivity
    | rewrite ?sort_ages_truthy; apply (sort_ages_drop _ _ _ Ha);
      integers_perm ].

(** X10: An age outside [20,79] added to any of the lists of the history is
    dropped before any lookup: the result is the one without it. *)
Lemma calculate_risk_ignores_invalid_list_age {num} {N : PyNum num} tie
    (T : claus_tables num) patient_age h c a :
  c <> Mother -> ~ in_valid_range a ->
  calculate_risk tie T patient_age (add_relative c a h)
    = calculate_risk tie T patient_age h.
Proof.
  intros Hc Ha. rewrite !calculate_risk_steps.
  rewrite (steps_same_youngest T (add_relative c a h) h); [reflexivity |].
  unfold same_youngest, first_degree_ages, second_degree_ages,
    maternal_second_degree_ages, paternal_second_degree_ages.
  destruct c; try contradiction; history_fields;
    repeat split; f_equal; solve_dropped Ha.
Qed.

Lemma calculate_risk_ignores_invalid_list_age_witness :
  calculate_risk HalfEven sample_tables_binary64 40
    (add_relative FullSister 85 (add_relative FullSister 45 no_history))
  = calculate_risk HalfEven sample_tables_binary64 40
      (add_relative FullSister 45 no_history).
Proof.
  apply calculate_risk_ignores_invalid_list_age.
  - discriminate.
  - unfold in_valid_range, VALID_MAX_AGE, VALID_MIN_AGE. lia.
Defined.

(** * Further properties of the helpers and of the calculator *)

(** ** [sort_ages] *)

(** X1: [sort_ages] returns, in ascending order, exactly the supplied ages that
    lie in [20,79], each as often as it was supplied. *)
Theorem sort_ages_sorted_valid_ages ages :
  StronglySorted Z.le (sort_ages ages) /\
  sort_ages ages ≡ₚ filter in_valid_range ages /\
  (forall a, a ∈ sort_ages ages <-> a ∈ ages /\ 20 <= a <= 79).
Proof.
  split; [apply sort_ages_StronglySorted |].
  split; [apply sorted_Permutation |].
  intros a. rewrite elem_of_sort_ages.
  unfold in_valid_range, VALID_MAX_AGE, VALID_MIN_AGE. tauto.
Qed.

(** X2: Applying [sort_ages] to its own result changes nothing. *)
Theorem sort_ages_idempotent ages : sort_ages (sort_ages ages) = sort_ages ages.
Proof.
  unfold sort_ages at 1 3. apply sorted_proper.
  unfold sort_ages. rewrite sorted_Permutation.
  rewrite list_filter_filter_l by tauto. reflexivity.
Qed.

(** ** [_bin_age_to_index] *)

(** X3: The bin of a non-zero age [age] is the [i] with
    [20 + 10 i <= age <= 29 + 10 i] (negative below 20); age 0 and only age 0
    has no bin. *)
Theorem bin_age_to_index_decade age :
  (forall i, _bin_age_to_index age = Some i <->
             age <> 0 /\ 20 + 10 * i <= age <= 29 + 10 * i) /\
  (_bin_age_to_index age = None <-> age = 0).
Proof.
  unfold _bin_age_to_index.
  destruct (Z.eqb_spec age 0) as [E | E].
  - split; [| tauto]. intros i. split; [discriminate | tauto].
  - split; [| split; [discriminate | contradiction]].
    intros i. split.
    + intros [= <-]. split; [exact E |].
      pose proof (Z.div_mod (age - 20) 10 ltac:(lia)).
      pose proof (Z.mod_pos_bound (age - 20) 10 ltac:(lia)). lia.
    + intros [_ Hi]. f_equal. symmetry.
      apply (Z.div_unique _ _ _ (age - 20 - 10 * i)); [left |]; lia.
Qed.

(** ** Histories without usable ages *)

Lemma sort_ages_integers_nil l :
  Forall unusable l -> sort_ages (integers l) = [].
Proof.
  intros H. apply sort_ages_nil. intros b Hb.
  apply elem_of_integers in Hb. rewrite list.Forall_forall in H.
  exact (H _ Hb).
Qed.

Lemma sort_ages_truthy_nil l :
  Forall unusable l -> sort_ages (truthy_ages l) = [].
Proof. intros H. rewrite sort_ages_truthy. apply sort_ages_integers_nil, H. Qed.

(** The mother-plus-aunt step when no aunt age is usable. *)
Lemma mother_aunt_step_unusable {num} mother aunts (table : pyval num) :
  match mother with Some m => m = 0 | None => True end \/ None ∉ aunts ->
  Forall unusable aunts ->
  mother_aunt_step mother aunts table = Ok None.
Proof.
  intros Hc Hall. unfold mother_aunt_step.
  destruct mother as [m |]; [| reflexivity].
  destruct (Z.eqb_spec m 0) as [E | E]; [reflexivity |].
  destruct Hc as [Hc | Hc]; [contradiction |].
  rewrite (sort_ages_entries_integers _ Hc), bind_Ok.
  rewrite (sort_ages_integers_nil _ Hall). reflexivity.
Qed.

(** X9: When no supplied age lies in [20,79] (in particular when all the
    arguments are empty) and the aunt lists can be compared with the age
    bounds, [calculate_risk] returns [None], for any patient age and without
    reading a table. *)
Theorem calculate_risk_no_valid_age {num} {N : PyNum num} tie
    (T : claus_tables num) patient_age h :
  no_valid_age h -> aunts_comparable h ->
  num_ltb (num_of_Z 0) (num_of_Z 0) = false ->
  calculate_risk tie T patient_age h = Ok None.
Proof.
  intros [Hm Hl] Hcmp Hirr. rewrite calculate_risk_steps.
  rewrite !Forall_app in Hl.
  destruct Hl as (Hd & Hs & Hma & Hpa & Hmg & Hpg & Hmh & Hph).
  assert (Hfd : first_degree_ages h = []).
  { unfold first_degree_ages. apply sort_ages_truthy_nil.
    rewrite !Forall_app. repeat split; try assumption.
    destruct (mother_onset_age h) as [m |]; [| constructor].
    destruct (m =? 0); constructor; [exact Hm | constructor]. }
  assert (Hsd : second_degree_ages h = []).
  { unfold second_degree_ages. apply sort_ages_truthy_nil.
    rewrite !Forall_app. repeat split; assumption. }
  assert (Hms : maternal_second_degree_ages h = []).
  { unfold maternal_second_degree_ages. apply sort_ages_truthy_nil.
    rewrite !Forall_app. repeat split; assumption. }
  assert (Hps : paternal_second_degree_ages h = []).
  { unfold paternal_second_degree_ages. apply sort_ages_truthy_nil.
    rewrite !Forall_app. repeat split; assumption. }
  assert (Hsma : forall table : pyval num,
            mother_aunt_step (mother_onset_age h) (maternal_aunt_onset_ages h)
              table = Ok None).
  { intros table. apply mother_aunt_step_unusable; [| exact Hma].
    destruct Hcmp as [Habs | [Hi _]]; [left; exact Habs | right; exact Hi]. }
  assert (Hspa : forall table : pyval num,
            mother_aunt_step (mother_onset_age h) (paternal_aunt_onset_ages h)
              table = Ok None).
  { intros table. apply mother_aunt_step_unusable; [| exact Hpa].
    destruct Hcmp as [Habs | [_ Hi]]; [left; exact Habs | right; exact Hi]. }
  rewrite foldM_none.
  - rewrite bind_Ok. unfold positive_or_none. rewrite Hirr. reflexivity.
  - unfold steps. rewrite Hfd, Hsd, Hms, Hps, Hsma, Hspa.
    repeat constructor.
Qed.

Lemma calculate_risk_no_valid_age_witness :
  calculate_risk HalfEven sample_tables_binary64 30
    (with_mother 85 (with_maternal_aunts [0; 15] no_history)) = Ok None.
Proof.
  apply calculate_risk_no_valid_age.
  - split.
    + simpl. unfold in_valid_range, VALID_MAX_AGE. lia.
    + simpl.
      repeat (constructor;
              [unfold unusable, in_valid_range, VALID_MAX_AGE, VALID_MIN_AGE;
               lia |]).
      constructor.
  - right. split; simpl.
    + rewrite !elem_of_cons, elem_of_nil.
      intros [H | [H | H]]; try discriminate H; exact H.
    + apply not_elem_of_nil.
  - reflexivity.
Defined.

(** X11: A mother's age that is 0, or that is outside [20,79] while the aunt
    lists hold integers only and none of them inside the range, has no
    effect: the result is the one without a mother's age. *)
Theorem calculate_risk_unusable_mother {num} {N : PyNum num} tie
    (T : claus_tables num) patient_age h m :
  mother_onset_age h = Some m ->
  ~ in_valid_range m ->
  m = 0 \/
  (aunts_are_integers h /\
   Forall unusable (maternal_aunt_onset_ages h ++ paternal_aunt_onset_ages h)) ->
  calculate_risk tie T patient_age h
    = calculate_risk tie T patient_age (without_mother h).
Proof.
  intros Hm Hinv Haunts. rewrite !calculate_risk_steps. f_equal.
  unfold steps.
  assert (Hfd : first_degree_ages h = first_degree_ages (without_mother h)).
  { unfold first_degree_ages. history_fields. rewrite Hm.
    destruct (m =? 0); [reflexivity |].
    rewrite !sort_ages_truthy, !integers_app, integers_cons_Some,
      <- app_comm_cons.
    apply sort_ages_out_of_range, Hinv. }
  assert (Hstep : forall aunts (table : pyval num),
    aunts = maternal_aunt_onset_ages h \/ aunts = paternal_aunt_onset_ages h ->
    mother_aunt_step (Some m) aunts table = Ok None).
  { intros aunts table Hau.
    destruct Haunts as [E0 | [[Hi1 Hi2] Hall]].
    - subst m. reflexivity.
    - apply Forall_app in Hall as [Hma Hpa].
      destruct Hau as [-> | ->]; apply mother_aunt_step_unusable;
        (right; assumption) || assumption. }
  rewrite Hfd, Hm, !Hstep by auto. reflexivity.
Qed.

Lemma calculate_risk_unusable_mother_witness :
  calculate_risk HalfEven sample_tables_binary64 40
    (with_mother 85 (with_full_sisters [45] no_history))
  = calculate_risk HalfEven sample_tables_binary64 40
      (without_mother (with_mother 85 (with_full_sisters [45] no_history))).
Proof.
  apply (calculate_risk_unusable_mother HalfEven sample_tables_binary64 40 _ 85).
  - reflexivity.
  - unfold in_valid_range, VALID_MAX_AGE. lia.
  - right. split; [split; apply not_elem_of_nil | constructor].
Defined.

(** ** Relation inside a degree *)

Lemma Permutation_interleave {A} (a b c d : list A) :
  a ++ b ++ c ++ d ≡ₚ (a ++ c) ++ (b ++ d).
Proof.
  rewrite <- (app_assoc a c). apply Permutation_app_head.
  rewrite !app_assoc. apply Permutation_app_tail, Permutation_app_comm.
Qed.

(** X12: Only the degree and the side of a relative matter: exchanging a sister
    for a daughter of the same age, or a grandmother for a half-sister of the
    same side, leaves the result unchanged. *)
Theorem calculate_risk_same_degrees {num} {N : PyNum num} tie
    (T : claus_tables num) patient_age h h' :
  same_degrees h h' ->
  calculate_risk tie T patient_age h = calculate_risk tie T patient_age h'.
Proof.
  intros (Hm & Hma & Hpa & Hfd & Hmg & Hpg).
  rewrite !calculate_risk_steps, (steps_same_youngest T h h'); [reflexivity |].
  unfold same_youngest, first_degree_ages, second_degree_ages,
    maternal_second_degree_ages, paternal_second_degree_ages.
  rewrite Hm.
  repeat split; f_equal;
    try (apply sort_ages_entries_proper; assumption);
    apply sort_ages_proper, truthy_ages_proper.
  - rewrite Hfd. reflexivity.
  - rewrite Hma, Hpa.
    rewrite (Permutation_interleave (maternal_grandmother_onset_ages h)),
      (Permutation_interleave (maternal_grandmother_onset_ages h')).
    rewrite Hmg, Hpg. reflexivity.
  - rewrite Hma, Hmg. reflexivity.
  - rewrite Hpa, Hpg. reflexivity.
Qed.

Lemma calculate_risk_same_degrees_witness :
  calculate_risk HalfEven sample_tables_binary64 40
    (with_full_sisters [45; 30] no_history)
  = calculate_risk HalfEven sample_tables_binary64 40
      (with_full_sisters [45] (with_daughters [30] no_history)).
Proof.
  apply calculate_risk_same_degrees.
  unfold same_degrees. simpl. repeat split; try reflexivity.
Defined.

(** ** Bounds of the table lookups *)



Lemma py_getitem_wrap {num} (l : list (pyval num)) i :
  - Z.of_nat (length l) <= i < 0 ->
  py_getitem (PList l) (Some i)
    = py_getitem (PList l) (Some (i + Z.of_nat (length l))).
Proof.
  intros Hi. unfold py_getitem.
  replace (i <? 0) with true by (symmetry; apply Z.ltb_lt; lia).
  replace (i + Z.of_nat (length l) <? 0) with false
    by (symmetry; apply Z.ltb_ge; lia).
  reflexivity.
Qed.

(** X4: A negative patient index counts from the last row, as Python's lists
    do: row [-1], the lifetime row, is the last row of the table. *)
Theorem lookup_negative_patient_index {num} (rows : list (pyval num)) p r1 r2 :
  - Z.of_nat (length rows) <= p < 0 ->
  _lookup_claus_table (PList rows) p r1 r2
    = _lookup_claus_table (PList rows) (p + Z.of_nat (length rows)) r1 r2.
Proof.
  intros Hp. unfold _lookup_claus_table.
  rewrite (py_getitem_wrap rows p Hp). reflexivity.
Qed.

Lemma lookup_negative_patient_index_witness :
  _lookup_claus_table (ONE_FIRST_DEG_TABLE sample_tables) (-1) (Some 2) None
    = _lookup_claus_table (ONE_FIRST_DEG_TABLE sample_tables) 5 (Some 2) None.
Proof.
  assert (H : - Z.of_nat (length (map (fun p =>
             PList (map (fun r => PNum (cell2 3 p r)) (seqZ 0 6))) (seqZ 0 6)))
           <= -1 < 0) by (simpl; lia).
  exact (lookup_negative_patient_index _ (-1) (Some 2) None H).
Defined.








(** ** Indices produced by the steps *)

Lemma bin_age_in_range a :
  in_valid_range a -> exists i, _bin_age_to_index a = Some i /\ 0 <= i <= 5.
Proof.
  intros Ha. destruct (bin_age_valid a Ha) as [E Hi]. eauto.
Qed.

Lemma single_step_inv {num} ages (table : pyval num) s :
  Forall in_valid_range ages -> single_step ages table = Some s ->
  exists i, s = (table, Some i, None) /\ 0 <= i <= 5.
Proof.
  intros Hv. destruct ages as [| a0 rest]; [discriminate |]. intros [= <-].
  apply list.Forall_cons in Hv as [H0 _].
  destruct (bin_age_in_range a0 H0) as (i & -> & Hi). eauto.
Qed.

Lemma pair_step_inv {num} ages (table : pyval num) s :
  Forall in_valid_range ages -> pair_step ages table = Some s ->
  exists i j, s = (table, Some i, Some j) /\ 0 <= i <= 5 /\ 0 <= j <= 5.
Proof.
  intros Hv. destruct ages as [| a0 [| a1 rest]]; try discriminate.
  intros [= <-].
  apply list.Forall_cons in Hv as [H0 Hv].
  apply list.Forall_cons in Hv as [H1 _].
  destruct (bin_age_in_range a0 H0) as (i & -> & Hi).
  destruct (bin_age_in_range a1 H1) as (j & -> & Hj). eauto.
Qed.

Lemma opposite_step_inv {num} maternal paternal (table : pyval num) s :
  Forall in_valid_range maternal -> Forall in_valid_range paternal ->
  opposite_step maternal paternal table = Some s ->
  exists i j, s = (table, Some i, Some j) /\ 0 <= i <= 5 /\ 0 <= j <= 5.
Proof.
  intros Hm Hp. destruct maternal as [| m0 ?], paternal as [| p0 ?];
    try discriminate.
  intros [= <-].
  apply list.Forall_cons in Hm as [H0 _].
  apply list.Forall_cons in Hp as [H1 _].
  destruct (bin_age_in_range m0 H0) as (i & -> & Hi).
  destruct (bin_age_in_range p0 H1) as (j & -> & Hj). eauto.
Qed.

(** A mother-plus-aunt step that applies: the mother's age is not 0 and the
    aunt's age is in the valid range. *)
Lemma mother_aunt_step_Some {num} mother aunts (table : pyval num) s :
  mother_aunt_step mother aunts table = Ok (Some s) ->
  exists m a0, mother = Some m /\ m <> 0 /\ in_valid_range a0 /\
               s = (table, _bin_age_to_index m, _bin_age_to_index a0).
Proof.
  unfold mother_aunt_step.
  destruct mother as [m |]; [| discriminate].
  destruct (Z.eqb_spec m 0) as [E | E]; [discriminate |].
  destruct (sort_ages_entries aunts) as [ages | e] eqn:Es; [| discriminate].
  rewrite bind_Ok. apply sort_ages_entries_valid in Es.
  destruct ages as [| a0 rest]; [discriminate |]. intros [= <-].
  apply list.Forall_cons in Es as [H0 _].
  exists m, a0.
  split; [reflexivity | split; [exact E | split; [exact H0 | reflexivity]]].
Qed.

Lemma mother_aunt_step_inv {num} mother aunts (table : pyval num) s :
  match mother with Some m => m = 0 \/ in_valid_range m | None => True end ->
  mother_aunt_step mother aunts table = Ok (Some s) ->
  exists i j, s = (table, Some i, Some j) /\ 0 <= i <= 5 /\ 0 <= j <= 5.
Proof.
  intros Hm Hs.
  apply mother_aunt_step_Some in Hs as (m & a0 & -> & Hm0 & Ha0 & ->).
  destruct Hm as [Hm | Hm]; [contradiction |].
  destruct (bin_age_in_range m Hm) as (i & -> & Hi).
  destruct (bin_age_in_range a0 Ha0) as (j & -> & Hj). eauto.
Qed.

(** Every applicable step is a lookup in a two-index table with one bin, or
    in a three-index table with two bins, all bins being in 0..5. *)
Lemma steps_inv {num} (T : claus_tables num) h s :
  mother_valid h -> Ok (Some s) ∈ steps T h ->
  (exists i, (s = (ONE_FIRST_DEG_TABLE T, Some i, None) \/
              s = (ONE_SECOND_DEG_TABLE T, Some i, None)) /\ 0 <= i <= 5) \/
  (exists table i j,
      s = (table, Some i, Some j) /\ 0 <= i <= 5 /\ 0 <= j <= 5 /\
      table ∈ [ TWO_FIRST_DEG_TABLE T; MOTHER_MATERNAL_AUNT T;
                MOTHER_PATERNAL_AUNT T; TWO_SEC_DEG_DIFF_SIDE_TABLE T;
                TWO_SEC_DEG_SAME_SIDE_TABLE T ]).
Proof.
  intros Hmv Ho. unfold steps in Ho. unfold mother_valid in Hmv.
  repeat (apply elem_of_cons in Ho as [Ho | Ho]); try (inversion Ho; fail);
    symmetry in Ho.
  - injection Ho as Hs.
    apply single_step_inv in Hs as (i & -> & Hi); [| apply sort_ages_valid].
    left. eauto.
  - injection Ho as Hs.
    apply single_step_inv in Hs as (i & -> & Hi); [| apply sort_ages_valid].
    left. eauto.
  - apply mother_aunt_step_inv in Ho as (i & j & -> & Hi & Hj); [| exact Hmv].
    right. eexists _, i, j. repeat split; try lia.
    rewrite !elem_of_cons. tauto.
  - apply mother_aunt_step_inv in Ho as (i & j & -> & Hi & Hj); [| exact Hmv].
    right. eexists _, i, j. repeat split; try lia.
    rewrite !elem_of_cons. tauto.
  - injection Ho as Hs.
    apply pair_step_inv in Hs as (i & j & -> & Hi & Hj);
      [| apply sort_ages_valid].
    right. eexists _, i, j. repeat split; try lia.
    rewrite !elem_of_cons. tauto.
  - injection Ho as Hs.
    apply pair_step_inv in Hs as (i & j & -> & Hi & Hj);
      [| apply sort_ages_valid].
    right. eexists _, i, j. repeat split; try lia.
    rewrite !elem_of_cons. tauto.
  - injection Ho as Hs.
    apply pair_step_inv in Hs as (i & j & -> & Hi & Hj);
      [| apply sort_ages_valid].
    right. eexists _, i, j. repeat split; try lia.
    rewrite !elem_of_cons. tauto.
  - injection Ho as Hs.
    apply opposite_step_inv in Hs as (i & j & -> & Hi & Hj);
      try apply sort_ages_valid.
    right. eexists _, i, j. repeat split; try lia.
    rewrite !elem_of_cons. tauto.
Qed.

(** X8: When the mother's age is absent, 0 or in [20,79], every lookup that
    [calculate_risk] performs uses relative indices between 0 and 5. *)
Theorem applicable_steps_bins {num} (T : claus_tables num) h s :
  mother_valid h -> s ∈ applicable_steps T h -> bins_in_range s.
Proof.
  intros Hmv Hs. unfold applicable_steps in Hs.
  apply elem_of_planned in Hs.
  destruct (steps_inv T h s Hmv Hs)
    as [(i & [-> | ->] & Hi) | (table & i & j & -> & Hi & Hj & _)];
    unfold bins_in_range; simpl; split; eauto.
Qed.

Lemma applicable_steps_bins_witness :
  bins_in_range (ONE_FIRST_DEG_TABLE sample_tables, Some 2, None).
Proof.
  apply (applicable_steps_bins sample_tables (with_mother 45 no_history)).
  - right. unfold in_valid_range, VALID_MAX_AGE, VALID_MIN_AGE. lia.
  - left.
Defined.

(** ** Absence of exceptions *)











(** Without the condition on the aunt lists: regular tables, a patient
    aged 40, a mother's onset at 45 and the maternal aunts [[None; 45]]. *)
Lemma calculate_risk_None_aunt_sample :
  regular_tables 6 6 below_one sample_tables = true /\
  calculate_risk HalfEven sample_tables 40
    (with_mother 45 (with_maternal_aunt_entries [None; Some 45] no_history))
    = Raise TypeError.
Proof. vm_compute. split; reflexivity. Qed.

(** ** Results *)













(** ** The missing-index sentinel *)

Lemma lookup_without_index {num} (table : pyval num) p r2 :
  exists e, _lookup_claus_table table p None r2 = Raise e.
Proof.
  unfold _lookup_claus_table.
  destruct (py_getitem table (Some p)) as [row | e] eqn:E.
  - exists TypeError. destruct r2; rewrite bind_Ok; destruct row; reflexivity.
  - exists e. destruct r2; reflexivity.
Qed.

(** X7: A lookup without a first relative index always raises, and
    [calculate_risk] never asks for one: the ages it bins are never 0, so
    the sentinel [None] of [_bin_age_to_index] does not reach a table. *)
Theorem applicable_steps_index_present {num} {N : PyNum num}
    (T : claus_tables num) h :
  (forall s, s ∈ applicable_steps T h -> exists i, s.1.2 = Some i) /\
  (forall tie (table : pyval num) patient_age r2 r,
     get_lifetime_risk tie table patient_age None r2 <> Ok r).
Proof.
  split.
  - intros s Hs. unfold applicable_steps in Hs.
    apply elem_of_planned in Hs. rename Hs into Ho.
    assert (Hmother : forall aunts (table : pyval num),
      mother_aunt_step (mother_onset_age h) aunts table = Ok (Some s) ->
      exists i, s.1.2 = Some i).
    { intros aunts table Hst.
      apply mother_aunt_step_Some in Hst as (m & a0 & _ & Hm0 & _ & ->).
      simpl. rewrite (bin_age_nonzero m Hm0). eauto. }
    unfold steps in Ho.
    repeat (apply elem_of_cons in Ho as [Ho | Ho]); try (inversion Ho; fail);
      symmetry in Ho;
      first
        [ eapply Hmother; exact Ho
        | injection Ho as Ho;
          first
            [ apply single_step_inv in Ho as (i & -> & _);
              [simpl; eauto | apply sort_ages_valid]
            | apply pair_step_inv in Ho as (i & j & -> & _);
              [simpl; eauto | apply sort_ages_valid]
            | apply opposite_step_inv in Ho as (i & j & -> & _);
              [simpl; eauto | apply sort_ages_valid ..] ] ].
  - intros tie table patient_age r2 r. unfold get_lifetime_risk.
    destruct (lookup_without_index table (-1) r2) as [e ->]. discriminate.
Qed.

Lemma applicable_steps_index_present_witness :
  exists i, (ONE_FIRST_DEG_TABLE sample_tables, Some 2, @None Z).1.2 = Some i.
Proof.
  apply (proj1 (applicable_steps_index_present sample_tables
                  (with_mother 45 no_history))).
  left.
Defined.

(** ** [None] entries in the lists *)

Lemma truthy_ages_without_none l :
  truthy_ages (map Some (integers l)) = truthy_ages l.
Proof.
  induction l as [| [a |] l IH]; [reflexivity | | exact IH].
  rewrite integers_cons_Some. cbn [map].
  rewrite !truthy_ages_cons_Some, IH. reflexivity.
Qed.

Lemma map_Some_integers l : None ∉ l -> map Some (integers l) = l.
Proof.
  induction l as [| [a |] l IH]; intros H.
  - reflexivity.
  - rewrite integers_cons_Some. cbn [map]. f_equal. apply IH.
    intros Hin. apply H. right. exact Hin.
  - destruct H. left.
Qed.

Lemma mother_aunt_step_absent {num} mother aunts (table : pyval num) :
  match mother with Some m => m = 0 | None => True end ->
  mother_aunt_step mother aunts table = Ok None.
Proof.
  intros H. unfold mother_aunt_step. destruct mother as [m |]; [| reflexivity].
  subst m. reflexivity.
Qed.

(** X19: The [None] entries of the lists are ignored, provided the aunt
    lists can be compared with the age bounds (no truthy mother's age, or no
    [None] among the aunts): the result is the one of the history without
    them. *)
Theorem calculate_risk_ignores_None {num} {N : PyNum num} tie
    (T : claus_tables num) patient_age h :
  aunts_comparable h ->
  calculate_risk tie T patient_age h
    = calculate_risk tie T patient_age (without_none h).
Proof.
  intros Hcmp. rewrite !calculate_risk_steps. f_equal. unfold steps.
  assert (Hfd : first_degree_ages (without_none h) = first_degree_ages h).
  { unfold first_degree_ages. cbn [without_none mother_onset_age
      full_sister_onset_ages daughter_onset_ages].
    rewrite !truthy_ages_app, !truthy_ages_without_none. reflexivity. }
  assert (Hsd : second_degree_ages (without_none h) = second_degree_ages h).
  { unfold second_degree_ages. cbn [without_none
      maternal_aunt_onset_ages paternal_aunt_onset_ages
      maternal_grandmother_onset_ages paternal_grandmother_onset_ages
      maternal_half_sister_onset_ages paternal_half_sister_onset_ages].
    rewrite !truthy_ages_app, !truthy_ages_without_none. reflexivity. }
  assert (Hms : maternal_second_degree_ages (without_none h)
                = maternal_second_degree_ages h).
  { unfold maternal_second_degree_ages. cbn [without_none
      maternal_aunt_onset_ages maternal_grandmother_onset_ages
      maternal_half_sister_onset_ages].
    rewrite !truthy_ages_app, !truthy_ages_without_none. reflexivity. }
  assert (Hps : paternal_second_degree_ages (without_none h)
                = paternal_second_degree_ages h).
  { unfold paternal_second_degree_ages. cbn [without_none
      paternal_aunt_onset_ages paternal_grandmother_onset_ages
      paternal_half_sister_onset_ages].
    rewrite !truthy_ages_app, !truthy_ages_without_none. reflexivity. }
  rewrite Hfd, Hsd, Hms, Hps.
  change (mother_onset_age (without_none h)) with (mother_onset_age h).
  change (maternal_aunt_onset_ages (without_none h))
    with (map Some (integers (maternal_aunt_onset_ages h))).
  change (paternal_aunt_onset_ages (without_none h))
    with (map Some (integers (paternal_aunt_onset_ages h))).
  destruct Hcmp as [Habs | [Hi1 Hi2]].
  - rewrite !mother_aunt_step_absent by exact Habs. reflexivity.
  - rewrite (map_Some_integers _ Hi1), (map_Some_integers _ Hi2). reflexivity.
Qed.

Lemma calculate_risk_ignores_None_witness :
  calculate_risk HalfEven sample_tables_binary64 40
    (with_maternal_aunt_entries [None; Some 45] no_history)
  = calculate_risk HalfEven sample_tables_binary64 40
      (without_none (with_maternal_aunt_entries [None; Some 45] no_history)).
Proof.
  apply calculate_risk_ignores_None. left. exact I.
Defined.



(** ** The result in any arithmetic *)

(** X20: In any arithmetic in which [0 > 0] is false, a risk returned by
    [calculate_risk] is positive and is the value that one of the lookups
    performed has produced: the rounding to three decimals of
    [(L - c) / (1 - c)] for the lifetime cell [L] and the interpolated
    current-age risk [c] of that lookup. *)
Theorem calculate_risk_rounded_candidate {num} {N : PyNum num} tie
    (T : claus_tables num) patient_age h r :
  num_ltb (num_of_Z 0) (num_of_Z 0) = false ->
  calculate_risk tie T patient_age h = Ok (Some r) ->
  num_ltb (num_of_Z 0) r = true /\
  exists s L c0 u,
    s ∈ applicable_steps T h /\
    _lookup_claus_table s.1.1 (-1) s.1.2 s.2 = Ok (PNum L) /\
    _lookup_claus_table s.1.1 ((patient_age - 29) / 10) s.1.2 s.2
      = Ok (PNum c0) /\
    ((patient_age - 29) mod 10 <> 0 ->
     _lookup_claus_table s.1.1 ((patient_age - 29) / 10 + 1) s.1.2 s.2
       = Ok (PNum u)) /\
    let c := interpolate c0 u ((patient_age - 29) mod 10) in
    r = num_round3 tie (num_div (num_sub L c) (num_sub (num_of_Z 1) c)).
Proof.
  intros Hirr. rewrite calculate_risk_candidates.
  destruct (candidates tie T patient_age h) as [cs | e] eqn:Ecs; [| discriminate].
  rewrite bind_Ok. unfold positive_or_none.
  destruct (num_ltb (num_of_Z 0) (max_risk cs)) eqn:Epos; [| discriminate].
  intros [= <-]. split; [exact Epos |].
  assert (Hin : max_risk cs ∈ cs).
  { destruct (foldl_py_max_cases (num_of_Z 0) cs) as [E | H]; [| exact H].
    unfold max_risk in Epos. rewrite E in Epos. congruence. }
  apply candidates_Ok in Ecs.
  destruct (mapM_Ok_elem_of _ _ _ _ Ecs Hin) as (s & Hs & Hcand).
  destruct s as [[table r1] r2]. cbn [candidate] in Hcand.
  apply get_lifetime_risk_inv in Hcand
    as (L & c0 & u & HL & Hc0 & Hu & _ & _ & Hval).
  exists (table, r1, r2), L, c0, u. cbn [fst snd].
  repeat split; assumption.
Qed.

Lemma calculate_risk_rounded_candidate_witness :
  num_ltb (num_of_Z 0) (Binary64.of_ratio 276 1000) = true /\
  exists s (L c0 u : Binary64.t),
    s ∈ applicable_steps sample_tables_binary64
          (with_mother 40 (with_maternal_aunts [35] no_history)) /\
    _lookup_claus_table s.1.1 (-1) s.1.2 s.2 = Ok (PNum L) /\
    _lookup_claus_table s.1.1 ((50 - 29) / 10) s.1.2 s.2 = Ok (PNum c0) /\
    ((50 - 29) mod 10 <> 0 ->
     _lookup_claus_table s.1.1 ((50 - 29) / 10 + 1) s.1.2 s.2 = Ok (PNum u)) /\
    let c := interpolate c0 u ((50 - 29) mod 10) in
    Binary64.of_ratio 276 1000
      = num_round3 HalfEven (num_div (num_sub L c) (num_sub (num_of_Z 1) c)).
Proof.
  apply (calculate_risk_rounded_candidate HalfEven sample_tables_binary64 50
           (with_mother 40 (with_maternal_aunts [35] no_history))).
  - reflexivity.
  - vm_compute. reflexivity.
Defined.

(** ** [round(x, 3)] *)



(** The binary64 rounding on three values: the quotient of C2's witness,
    which lies just above the tie 0.1125, and the ties 0.0625 and 0.1875,
    which binary64 represents exactly. *)
Lemma binary64_round3_examples :
  Binary64.round3 HalfEven
    (num_div (num_sub (Binary64.of_ratio 432 1000) (Binary64.of_ratio 360 1000))
             (num_sub (num_of_Z 1) (Binary64.of_ratio 360 1000)))
    = Binary64.of_ratio 113 1000 /\
  Binary64.round3 HalfEven (Binary64.of_ratio 625 10000)
    = Binary64.of_ratio 62 1000 /\
  Binary64.round3 HalfEven (Binary64.of_ratio 1875 10000)
    = Binary64.of_ratio 188 1000.
Proof. vm_compute. repeat split; reflexivity. Qed.
